(** * Uploader: the relay endpoint and the upload widget

    A shallow embedding of the two programs of the repository:

    - [Relay]: the Express server (routes [GET /] and [POST /upload]),
      whose handlers run in a small state-and-exception monad over the
      response object, the console and the log of provider SDK calls;
    - [Widget]: the React component [UploaderWrapper], as a transition
      system over the component state and the browser resources it
      touches (blob URLs, HTTP requests, alerts). *)

From Stdlib Require Import ZArith Lia.
From stdpp Require Import base tactics option list strings pretty.

Local Open Scope string_scope.
Local Open Scope list_scope.
Local Open Scope Z_scope.

(** ** JSON values, as far as the two programs build and read them *)

#[local] Set Warnings "-register-all".

Inductive Json :=
| JNull
| JBool (b : bool)
| JNum (n : Z)
| JStr (s : string)
| JObj (fields : list (string * Json)).

(** [obj.key] on a JSON value *)
Fixpoint assoc (key : string) (fields : list (string * Json)) : option Json :=
  match fields with
  | [] => None
  | (k, v) :: rest => if String.eqb k key then Some v else assoc key rest
  end.

Definition field (key : string) (j : Json) : option Json :=
  match j with
  | JObj fields => assoc key fields
  | _ => None
  end.

(** * The relay endpoint *)

Module Relay.

(** One entry of [req.files], as multer's disk storage fills it in. *)
Record MulterFile := {
  originalname : string;
  size : Z;
  path : string;
}.

(** [files] is [None] where [req.files] is undefined: multer leaves the
    request alone when it is not multipart. *)
Record Request := {
  req_headers : list (string * string);
  files : option (list MulterFile);
}.

(** The response object [res]. *)
Record Response := {
  statusCode : Z;
  headers : list (string * string);
  body : option Json;
}.

Definition fresh_res : Response :=
  {| statusCode := 200; headers := []; body := None |}.

(** What a promise settles to. *)
Inductive Settled :=
| Fulfilled (value : Json)
| Rejected (reason : Json).

Inductive Exn :=
| TypeError (msg : string)
| Thrown (reason : Json).

(** The state a handler acts on. *)
Record World := {
  res : Response;
  console : list (option (list MulterFile));
  sdk_uploads : list string;
}.

(** Handlers: state passing with abrupt completion. For the [async]
    handler an [inl e] result is the rejection of the promise it
    returns; nothing in the program catches it. *)
Definition M (A : Type) : Type := World → World * (Exn + A).

#[export] Instance M_ret : MRet M := λ A a w, (w, inr a).

#[export] Instance M_bind : MBind M := λ A B k m w,
  match m w with
  | (w', inr a) => k a w'
  | (w', inl e) => (w', inl e)
  end.

Definition throw {A} (e : Exn) : M A := λ w, (w, inl e).

Definition with_res (f : Response → Response) : M unit :=
  λ w, ({| res := f (res w); console := console w;
           sdk_uploads := sdk_uploads w |}, inr tt).

(** [res.setHeader(k, v)] *)
Definition setHeader (k v : string) : M unit :=
  with_res (λ r, {| statusCode := statusCode r;
                    headers := headers r ++ [(k, v)];
                    body := body r |}).

(** [res.status(code)] *)
Definition status (code : Z) : M unit :=
  with_res (λ r, {| statusCode := code; headers := headers r;
                    body := body r |}).

(** [res.json(payload)] *)
Definition json (payload : Json) : M unit :=
  with_res (λ r, {| statusCode := statusCode r; headers := headers r;
                    body := Some payload |}).

(** [console.log(req.files)] *)
Definition console_log (v : option (list MulterFile)) : M unit :=
  λ w, ({| res := res w; console := console w ++ [v];
           sdk_uploads := sdk_uploads w |}, inr tt).

(** [req.files[0].path]: indexing [undefined] throws, and so does
    reading [path] off the [undefined] that an empty array gives. *)
Definition first_path (fs : option (list MulterFile)) : M string :=
  match fs with
  | None =>
      throw (TypeError "Cannot read properties of undefined (reading 0)")
  | Some [] =>
      throw (TypeError "Cannot read properties of undefined (reading path)")
  | Some (f :: _) => mret (path f)
  end.

Section Handlers.

(** The provider: what [Cloudinary.uploader.upload] settles to on a
    path. *)
Variable provider : string → Settled.

(** [await Cloudinary.uploader.upload(p)] *)
Definition await_upload (p : string) : M Json :=
  λ w, let w' := {| res := res w; console := console w;
                    sdk_uploads := sdk_uploads w ++ [p] |} in
       match provider p with
       | Fulfilled v => (w', inr v)
       | Rejected e => (w', inl (Thrown e))
       end.

(** [app.get("/", ...)] *)
Definition get_root (req : Request) : M unit :=
  setHeader "customvalue" "somehting";;
  status 200;;
  json (JObj [("success", JBool true);
              ("message", JStr "Server is working fine")]).

(** [app.post("/upload", upload.array("files"), async ...)]; the
    size check of the source is a comment and has no counterpart. *)
Definition post_upload (req : Request) : M unit :=
  console_log (files req);;
  p ← first_path (files req);
  result ← await_upload p;
  status 200;;
  json (JObj [("success", JBool true);
              ("message", JStr "Uploaded successfully");
              ("result", result)]).

(** One request: the handler gets a response object of its own. *)
Definition serve (h : Request → M unit) (req : Request) (w : World)
  : World * (Exn + unit) :=
  h req {| res := fresh_res; console := console w;
           sdk_uploads := sdk_uploads w |}.

End Handlers.

End Relay.

(** * The upload widget *)

Module Widget.

(** A browser [File] handle. *)
Record File := {
  name : string;
  fsize : Z;
}.

Inductive Status := Pending | Uploading | Success | Error.

(** [interface UploadableFile] *)
Record UploadableFile := {
  file : File;
  id : string;
  url : string;
  progress : Z;
  est : string;
  status : Status;
  remoteUrl : option Json;
}.

(** What the component cannot compute on its own: the token the n-th
    [Math.random().toString(36).substring(7)] yields, the blob URL the
    n-th [URL.createObjectURL] mints for a file, and the remaining-time
    label of a progress callback, which the source derives in floating
    point from the start time, [Date.now()] and the byte counters. *)
Class Browser := {
  random_id : nat → string;
  createObjectURL : nat → File → string;
  estimate : Z → Z → Z → Z → string;
}.

(** The argument of [onUploadProgress]; [total] is optional. *)
Record ProgressEvent := {
  loaded : Z;
  total : option Z;
}.

Inductive FormValue := FormFile (f : File) | FormText (s : string).

(** One [axios.post] call. *)
Record HttpPost := {
  target : string;
  formData : list (string * FormValue);
}.

(** One call of [uploadSingleFile]: the request it issued, the
    [fileWrapper] and [startTime] its callbacks close over, the
    [Promise.all] it belongs to and whether it has settled. *)
Record Flight := {
  request : HttpPost;
  fileWrapper : UploadableFile;
  startTime : Z;
  batch : nat;
  settled : bool;
}.

(** One [await Promise.all(uploadPromises)]: how many promises it
    waits for, how many are fulfilled, and whether [handleUpload] has
    already run past it. *)
Record Batch := {
  awaited : nat;
  fulfilled : nat;
  joined : bool;
}.

Inductive Notice :=
| ConsoleLog (msg : string)
| ConsoleError (msg : string)
| Alert (msg : string).

(** The component state ([selectedFiles], [uploading]) and the browser
    resources the component acts on. *)
Record State := {
  selectedFiles : list UploadableFile;
  uploading : bool;
  draws : nat;
  blobs : nat;
  revoked : list string;
  flights : list Flight;
  batches : list Batch;
  notices : list Notice;
}.

Definition initial : State :=
  {| selectedFiles := []; uploading := false; draws := 0%nat; blobs := 0%nat;
     revoked := []; flights := []; batches := []; notices := [] |}.

Section Component.

Context `{Browser}.

(** [setUploading(b)] *)
Definition setUploading (b : bool) (w : State) : State :=
  {| selectedFiles := selectedFiles w; uploading := b; draws := draws w;
     blobs := blobs w; revoked := revoked w; flights := flights w;
     batches := batches w; notices := notices w |}.

(** The cleanup of the effect that depends on [selectedFiles]:
    [selectedFiles.forEach((file) => URL.revokeObjectURL(file.url))],
    over the list the effect was set up with. *)
Definition cleanup (prev : list UploadableFile) (w : State) : State :=
  {| selectedFiles := selectedFiles w; uploading := uploading w;
     draws := draws w; blobs := blobs w;
     revoked := revoked w ++ map url prev; flights := flights w;
     batches := batches w; notices := notices w |}.

(** [setSelectedFiles((prev) => f(prev))]. Every updater of the
    component builds a new array, so the dependency of the effect
    changes with each call and React runs the cleanup of the list that
    is replaced. *)
Definition setSelectedFiles
    (f : list UploadableFile → list UploadableFile) (w : State) : State :=
  let prev := selectedFiles w in
  cleanup prev
    {| selectedFiles := f prev; uploading := uploading w; draws := draws w;
       blobs := blobs w; revoked := revoked w; flights := flights w;
       batches := batches w; notices := notices w |}.

Definition notify (n : Notice) (w : State) : State :=
  {| selectedFiles := selectedFiles w; uploading := uploading w;
     draws := draws w; blobs := blobs w; revoked := revoked w;
     flights := flights w; batches := batches w;
     notices := notices w ++ [n] |}.

Definition with_flights (fl : list Flight) (w : State) : State :=
  {| selectedFiles := selectedFiles w; uploading := uploading w;
     draws := draws w; blobs := blobs w; revoked := revoked w;
     flights := fl; batches := batches w; notices := notices w |}.

Definition with_batches (bs : list Batch) (w : State) : State :=
  {| selectedFiles := selectedFiles w; uploading := uploading w;
     draws := draws w; blobs := blobs w; revoked := revoked w;
     flights := flights w; batches := bs; notices := notices w |}.

(** The object [onDrop] builds for the [i]-th accepted file. *)
Definition newFile (w : State) (i : nat) (f : File) : UploadableFile :=
  {| file := f;
     id := random_id (draws w + i);
     url := createObjectURL (blobs w + i) f;
     progress := 0;
     status := Pending;
     est := EmptyString;
     remoteUrl := None |}.

(** [onDrop] *)
Definition onDrop (acceptedFiles : list File) (w : State) : State :=
  let newFiles := imap (newFile w) acceptedFiles in
  let n := length acceptedFiles in
  setSelectedFiles (λ prev, prev ++ newFiles)
    {| selectedFiles := selectedFiles w; uploading := uploading w;
       draws := (draws w + n)%nat; blobs := (blobs w + n)%nat;
       revoked := revoked w; flights := flights w; batches := batches w;
       notices := notices w |}.

(** The [onUploadProgress] callback of the request started for
    [fw] at [start]. The byte counters are integers, on which
    [Math.floor((loaded * 100) / total)] is the integer quotient. *)
Definition onUploadProgress (fw : UploadableFile) (start : Z)
    (progressEvent : ProgressEvent) (now : Z) (w : State) : State :=
  match total progressEvent with
  | None => w
  | Some 0 => w
  | Some total =>
      let loaded := loaded progressEvent in
      let percentage := (loaded * 100) `div` total in
      let est := estimate start now loaded total in
      setSelectedFiles
        (map (λ item,
           if String.eqb (id item) (id fw)
           then {| file := file item; id := id item; url := url item;
                   progress := percentage;
                   est := est;
                   status := Uploading;
                   remoteUrl := remoteUrl item |}
           else item)) w
  end.

(** [uploadSingleFile]: one [axios.post], issued in batch [b]. *)
Definition uploadSingleFile (now : Z) (b : nat) (fw : UploadableFile)
    (w : State) : State :=
  let formData := [("file", FormFile (file fw));
                   ("upload_preset", FormText "random named")] in
  with_flights
    (flights w ++
       [{| request :=
             {| target :=
                  "https://api.cloudinary.com/v1_1/dxkn26bp8/auto/upload";
                formData := formData |};
           fileWrapper := fw; startTime := now; batch := b;
           settled := false |}]) w.

(** The update after [await uploadSingleFile(fileWrapper)] returns
    [response]; [data] is [response.data]. *)
Definition onFulfilled (fw : UploadableFile) (data : list (string * Json))
    (w : State) : State :=
  setSelectedFiles
    (map (λ item,
       if String.eqb (id item) (id fw)
       then {| file := file item; id := id item; url := url item;
               progress := 100;
               est := est item;
               status := Success;
               remoteUrl := assoc "secure_url" data |}
       else item)) w.

(** The update of the inner [catch]. *)
Definition onRejected (fw : UploadableFile) (w : State) : State :=
  setSelectedFiles
    (map (λ item,
       if String.eqb (id item) (id fw)
       then {| file := file item; id := id item; url := url item;
               progress := 0;
               est := est item;
               status := Error;
               remoteUrl := remoteUrl item |}
       else item)) w.

(** [handleUpload], up to [await Promise.all(uploadPromises)]: the
    body of each mapped function runs to its [await], that is through
    the [axios.post] of [uploadSingleFile]. [now] is what [Date.now()]
    reads during that run. *)
Definition handleUpload (now : Z) (w : State) : State :=
  if (length (selectedFiles w) =? 0)%nat then w
  else
    let b := length (batches w) in
    let w1 := setUploading true w in
    let w2 := foldl (λ acc fw, uploadSingleFile now b fw acc) w1
                (selectedFiles w) in
    with_batches
      (batches w2 ++ [{| awaited := length (selectedFiles w);
                         fulfilled := 0%nat; joined := false |}]) w2.

(** [handleUpload] past a [Promise.all] that resolved. *)
Definition joinResolved (w : State) : State :=
  setUploading false (notify (ConsoleLog "All uploads complete") w).

(** [handleUpload] past a [Promise.all] that rejected: [catch] and
    [finally]. *)
Definition joinRejected (w : State) : State :=
  setUploading false
    (notify (Alert "One or more uploads failed.")
       (notify (ConsoleError "Upload failed:") w)).

Definition settle (r : nat) (w : State) : State :=
  with_flights
    (alter (λ fl, {| request := request fl; fileWrapper := fileWrapper fl;
                     startTime := startTime fl; batch := batch fl;
                     settled := true |}) r (flights w)) w.

(** A mapped promise of batch [b] fulfils: [Promise.all] resolves
    once all of them have. *)
Definition allFulfil (b : nat) (w : State) : State :=
  match batches w !! b with
  | Some bt =>
      if joined bt then w
      else
        let k := S (fulfilled bt) in
        if (k =? awaited bt)%nat
        then joinResolved
               (with_batches
                  (<[b := {| awaited := awaited bt; fulfilled := k;
                             joined := true |}]> (batches w)) w)
        else with_batches
               (<[b := {| awaited := awaited bt; fulfilled := k;
                          joined := false |}]> (batches w)) w
  | None => w
  end.

(** A mapped promise of batch [b] rejects: [Promise.all] rejects at
    the first one. *)
Definition allReject (b : nat) (w : State) : State :=
  match batches w !! b with
  | Some bt =>
      if joined bt then w
      else joinRejected
             (with_batches
                (<[b := {| awaited := awaited bt; fulfilled := fulfilled bt;
                           joined := true |}]> (batches w)) w)
  | None => w
  end.

(** [resetUploader] *)
Definition resetUploader (w : State) : State :=
  setUploading false (setSelectedFiles (λ _, []) w).

(** [removeFile] *)
Definition removeFile (i : string) (w : State) : State :=
  if uploading w then w
  else setSelectedFiles (filter (λ f, id f ≠ i)) w.

(** ** The component as a transition system *)

Inductive Event :=
| EvDrop (acceptedFiles : list File)
| EvUpload (now : Z)
| EvProgress (r : nat) (progressEvent : ProgressEvent) (now : Z)
| EvFulfil (r : nat) (data : list (string * Json))
| EvReject (r : nat)
| EvClear
| EvRemove (i : string).

(** One event. The callbacks run whenever they are called; which
    calls the rendered component permits is [offered], below. The
    network events of request [r] reach its callbacks while the request
    is unsettled. *)
Definition step (w : State) (e : Event) : State :=
  match e with
  | EvDrop acceptedFiles => onDrop acceptedFiles w
  | EvUpload now => handleUpload now w
  | EvProgress r progressEvent now =>
      match flights w !! r with
      | Some fl =>
          if settled fl then w
          else onUploadProgress (fileWrapper fl) (startTime fl)
                 progressEvent now w
      | None => w
      end
  | EvFulfil r data =>
      match flights w !! r with
      | Some fl =>
          if settled fl then w
          else allFulfil (batch fl)
                 (settle r (onFulfilled (fileWrapper fl) data w))
      | None => w
      end
  | EvReject r =>
      match flights w !! r with
      | Some fl =>
          if settled fl then w
          else allReject (batch fl)
                 (settle r (onRejected (fileWrapper fl) w))
      | None => w
      end
  | EvClear => resetUploader w
  | EvRemove i => removeFile i w
  end.

Definition run (w : State) (trace : list Event) : State :=
  foldl step w trace.

(** What the rendered component lets the user do: the dropzone is
    rendered for an empty list and disabled while [uploading]; the
    buttons are rendered while not [uploading], the upload button for a
    list with a pending or failed item, the clear button for a
    non-empty list, a remove button per item. Network events need no
    permission. *)
Definition offered (w : State) (e : Event) : bool :=
  match e with
  | EvDrop _ =>
      negb (uploading w) && (length (selectedFiles w) <? 1)%nat
  | EvUpload _ =>
      negb (uploading w) && (0 <? length (selectedFiles w))%nat &&
      existsb (λ f, match status f with
                    | Pending | Error => true
                    | _ => false
                    end) (selectedFiles w)
  | EvClear => negb (uploading w) && (0 <? length (selectedFiles w))%nat
  | EvRemove i =>
      negb (uploading w) && existsb (λ f, String.eqb (id f) i) (selectedFiles w)
  | EvProgress r _ _ | EvFulfil r _ | EvReject r =>
      match flights w !! r with
      | Some fl => negb (settled fl)
      | None => false
      end
  end.

(** A trace the user and the network can produce from [w]. *)
Fixpoint feasible (w : State) (trace : list Event) : bool :=
  match trace with
  | [] => true
  | e :: rest => offered w e && feasible (step w e) rest
  end.

End Component.

End Widget.

(** * Vocabulary of the properties *)

Module RelaySpec.
Import Relay.

(** The answer the contract of [POST /upload] describes: the handler
    completes, status 200, body [{success: true, message, result}]. *)
Definition answers_ok (provider : string → Settled) (req : Request)
    (w : World) : Prop :=
  ∃ w' message result,
    serve (post_upload provider) req w = (w', inr tt) ∧
    statusCode (res w') = 200 ∧
    body (res w') = Some (JObj [("success", JBool true);
                                ("message", JStr message);
                                ("result", result)]).

(** The same request with other file sizes. *)
Definition resize (g : MulterFile → Z) (req : Request) : Request :=
  {| req_headers := req_headers req;
     files := (λ fs, map (λ f, {| originalname := originalname f;
                                  size := g f;
                                  path := path f |}) fs) <$> files req |}.

Definition no_uploads : World :=
  {| res := fresh_res; console := []; sdk_uploads := [] |}.

Definition stored (p : string) : MulterFile :=
  {| originalname := "photo.png"; size := 2000000; path := p |}.

Definition one_file : Request :=
  {| req_headers := []; files := Some [stored "uploads/3f9a"] |}.

Definition two_files : Request :=
  {| req_headers := [];
     files := Some [stored "uploads/3f9a"; stored "uploads/77c1"] |}.

Definition zero_files : Request :=
  {| req_headers := []; files := Some [] |}.

Definition provider_down : string → Settled :=
  λ _, Rejected (JObj [("http_code", JNum 500)]).

Definition provider_up : string → Settled :=
  λ p, Fulfilled (JObj [("secure_url", JStr p)]).

End RelaySpec.

Module WidgetSpec.
Import Widget.

(** A progress event as the browser reports it: the bytes sent are
    between nothing and the whole request. *)
Definition wellformed (e : Event) : Prop :=
  match e with
  | EvProgress _ progressEvent _ =>
      match total progressEvent with
      | Some t => 0 ≤ loaded progressEvent ≤ t
      | None => True
      end
  | _ => True
  end.

(** The progress property as the specification words it. *)
Definition progress_as_specified (w : State) : Prop :=
  ∀ item, item ∈ selectedFiles w →
    0 ≤ progress item ≤ 100 ∧ (progress item = 100 → status item = Success).

(** What the lifecycle keeps true of an item. *)
Definition item_ok (item : UploadableFile) : Prop :=
  match status item with
  | Pending | Error => progress item = 0
  | Uploading => 0 ≤ progress item ≤ 100
  | Success => progress item = 100
  end.

(** The preview URL of an item is one [URL.createObjectURL] minted
    for its file. *)
Definition minted `{Browser} (w : State) (item : UploadableFile) : Prop :=
  ∃ n, (n < blobs w)%nat ∧ url item = createObjectURL n (file item).

(** Events that discard no item. *)
Definition keeps (e : Event) : Prop :=
  match e with
  | EvClear | EvRemove _ => False
  | _ => True
  end.

(** Events other than a press of the upload button. *)
Definition untriggered (e : Event) : Prop :=
  match e with
  | EvUpload _ => False
  | _ => True
  end.

(** The number of files the drops of a trace handed over. *)
Definition accepted (e : Event) : nat :=
  match e with
  | EvDrop acceptedFiles => length acceptedFiles
  | _ => 0%nat
  end.

Definition accepted_total (trace : list Event) : nat :=
  foldr (λ e n, (accepted e + n)%nat) 0%nat trace.

(** The request [uploadSingleFile] sends for an item. *)
Definition upload_request (item : UploadableFile) : HttpPost :=
  {| target := "https://api.cloudinary.com/v1_1/dxkn26bp8/auto/upload";
     formData := [("file", FormFile (file item));
                  ("upload_preset", FormText "random named")] |}.

(** An item after its upload failed. *)
Definition failed (item : UploadableFile) : UploadableFile :=
  {| file := file item; id := id item; url := url item; progress := 0;
     est := est item; status := Error; remoteUrl := remoteUrl item |}.

(** A browser to run the examples in. *)
Definition sample_browser : Browser :=
  {| random_id := λ n, String.append "k7" (pretty n);
     createObjectURL := λ n f, String.append "blob:" (pretty n);
     estimate := λ _ _ _ _, "Finishing..." |}.

#[local] Existing Instance sample_browser.

Definition photo : File := {| name := "photo.png"; fsize := 1048576 |}.
Definition clip : File := {| name := "clip.mp4"; fsize := 1048576 |}.

(** One file is dropped, the upload is started, and the browser
    reports that all ten bytes of the request are sent. *)
Definition all_bytes_sent : list Event :=
  [EvDrop [photo]; EvUpload 1000;
   EvProgress 0 {| loaded := 10; total := Some 10 |} 1400].

(** Two files are dropped and uploaded; the second upload fails, the
    first succeeds. *)
Definition second_fails : list Event :=
  [EvDrop [photo; clip]; EvUpload 1000;
   EvProgress 0 {| loaded := 4; total := Some 10 |} 1400;
   EvReject 1;
   EvFulfil 0 [("secure_url", JStr "https://res.example/photo.png")]].

(** Two files are dropped and their uploads are in flight. *)
Definition two_in_flight : State :=
  run initial [EvDrop [photo; clip]; EvUpload 1000].

(** The item of [photo] once all bytes are reported sent. *)
Definition photo_sent : UploadableFile :=
  {| file := photo; id := "k70"; url := "blob:0"; progress := 100;
     est := "Finishing..."; status := Uploading; remoteUrl := None |}.

End WidgetSpec.

Module LifecycleSpec.
Import Widget.

(** An item after its upload succeeded with [response.data = data]. *)
Definition succeeded (data : list (string * Json)) (item : UploadableFile)
  : UploadableFile :=
  {| file := file item; id := id item; url := url item; progress := 100;
     est := est item; status := Success;
     remoteUrl := assoc "secure_url" data |}.

(** An item after a progress event of the request [fl], read at [now],
    that reports [sent] of [t] bytes. *)
Definition advanced `{Browser} (fl : Flight) (sent t now : Z)
    (item : UploadableFile) : UploadableFile :=
  {| file := file item; id := id item; url := url item;
     progress := (sent * 100) `div` t;
     est := estimate (startTime fl) now sent t;
     status := Uploading; remoteUrl := remoteUrl item |}.

(** What an item is, as opposed to how far its upload is. *)
Definition identity (item : UploadableFile) : string * File * string :=
  (id item, file item, url item).

(** Events of the upload lifecycle: neither a drop nor a removal. *)
Definition stays (e : Event) : Prop :=
  match e with
  | EvDrop _ | EvClear | EvRemove _ => False
  | _ => True
  end.

(** The network events of request [r]. *)
Definition about (r : nat) (e : Event) : Prop :=
  match e with
  | EvProgress r' _ _ | EvFulfil r' _ | EvReject r' => r' = r
  | _ => False
  end.

(** The requests of batch [b] that have not settled. *)
Definition outstanding (b : nat) (w : State) : list Flight :=
  filter (λ fl, batch fl = b ∧ settled fl = false) (flights w).

(** The [Promise.all]s that are still awaited. *)
Definition pending_joins (w : State) : list Batch :=
  filter (λ bt, joined bt = false) (batches w).

(** The [Promise.all]s that rejected, and those that resolved. *)
Definition rejected_joins (w : State) : list Batch :=
  filter (λ bt, joined bt = true ∧ (fulfilled bt < awaited bt)%nat)
    (batches w).

Definition resolved_joins (w : State) : list Batch :=
  filter (λ bt, joined bt = true ∧ fulfilled bt = awaited bt) (batches w).

Definition is_alert (n : Notice) : bool :=
  match n with
  | Alert _ => true
  | _ => false
  end.

Definition is_completion (n : Notice) : bool :=
  match n with
  | ConsoleLog _ => true
  | _ => false
  end.

(** The bookkeeping of the batches: an awaited [Promise.all] still
    misses as many results as requests of its batch are unsettled, and
    at least one; every request belongs to a batch that was started;
    and [uploading] is set only while a [Promise.all] is awaited. *)
(** Each rejected [Promise.all] has raised one alert, each resolved
    one has logged one completion. *)
Definition reports_sound (w : State) : Prop :=
  length (filter is_alert (notices w)) = length (rejected_joins w) ∧
  length (filter is_completion (notices w)) = length (resolved_joins w).

(** The identifiers of the list are distinct tokens drawn so far. *)
Definition ids_sound `{Browser} (w : State) : Prop :=
  NoDup (map id (selectedFiles w)) ∧
  Forall (λ i, ∃ n, (n < draws w)%nat ∧ i = random_id n)
    (map id (selectedFiles w)).

Definition batches_sound (w : State) : Prop :=
  (∀ b bt, batches w !! b = Some bt → joined bt = false →
     (fulfilled bt + length (outstanding b w) = awaited bt)%nat ∧
     (fulfilled bt < awaited bt)%nat) ∧
  Forall (λ fl, (batch fl < length (batches w))%nat) (flights w) ∧
  (uploading w = true → ∃ b bt, batches w !! b = Some bt ∧ joined bt = false).

(** The network events of uploads that go well. *)
Definition succeeding (e : Event) : Prop :=
  match e with
  | EvProgress _ _ _ | EvFulfil _ _ => True
  | _ => False
  end.

(** The items are listed in the order of the requests made for them. *)
Definition aligned (w : State) : Prop :=
  map id (selectedFiles w) = map (λ fl, id (fileWrapper fl)) (flights w).

(** The item of every settled request shows the success of one of the
    responses of [trace]. *)
Definition settled_show_success (w : State) (trace : list Event) : Prop :=
  ∀ k fl item,
    flights w !! k = Some fl → settled fl = true →
    selectedFiles w !! k = Some item →
    status item = Success ∧ progress item = 100 ∧
    ∃ data, EvFulfil k data ∈ trace ∧
            remoteUrl item = assoc "secure_url" data.

(** One batch, whose completion is the only notice. *)
Definition single_batch (w : State) : Prop :=
  ∃ bt, batches w = [bt] ∧
        notices w = (if joined bt then [ConsoleLog "All uploads complete"]
                     else []).

(** Inputs of the worked executions. *)
Definition secure : list (string * Json) :=
  [("secure_url", JStr "https://res.example/photo.png")].

Definition four_of_ten : ProgressEvent := {| loaded := 4; total := Some 10 |}.
Definition seven_of_ten : ProgressEvent := {| loaded := 7; total := Some 10 |}.

(** Two uploads are started, the second fails, and the item of the
    first is removed while its request is in flight. *)
Definition removed_in_flight : State :=
  @run WidgetSpec.sample_browser initial
    [EvDrop [WidgetSpec.photo; WidgetSpec.clip]; EvUpload 1000; EvReject 1;
     EvRemove "k70"].

End LifecycleSpec.

(** * The relay endpoint: properties *)

Section RelayFacts.
Import Relay RelaySpec.

Implicit Types (provider : string → Settled) (req : Request) (w : World).

Lemma serve_get_root req w :
  serve get_root req w =
    ({| res := {| statusCode := 200;
                  headers := [("customvalue", "somehting")];
                  body := Some (JObj [("success", JBool true);
                                      ("message",
                                       JStr "Server is working fine")]) |};
        console := console w; sdk_uploads := sdk_uploads w |}, inr tt).
Proof. reflexivity. Qed.

(** What [POST /upload] does on a request with a first file. *)
Lemma serve_post_upload_cons provider req w f rest :
  files req = Some (f :: rest) →
  serve (post_upload provider) req w =
    match provider (path f) with
    | Fulfilled result =>
        ({| res := {| statusCode := 200; headers := [];
                      body := Some (JObj [("success", JBool true);
                                          ("message",
                                           JStr "Uploaded successfully");
                                          ("result", result)]) |};
            console := console w ++ [files req];
            sdk_uploads := sdk_uploads w ++ [path f] |}, inr tt)
    | Rejected e =>
        ({| res := fresh_res;
            console := console w ++ [files req];
            sdk_uploads := sdk_uploads w ++ [path f] |}, inl (Thrown e))
    end.
Proof.
  intros Hfiles. unfold serve, post_upload, mbind, M_bind.
  rewrite Hfiles. cbn. unfold await_upload. cbn.
  destruct (provider (path f)); reflexivity.
Qed.

(** What [POST /upload] does on a request without a first file. *)
Lemma serve_post_upload_nil provider req w :
  files req = Some [] ∨ files req = None →
  ∃ msg,
    serve (post_upload provider) req w =
      ({| res := fresh_res; console := console w ++ [files req];
          sdk_uploads := sdk_uploads w |}, inl (TypeError msg)).
Proof.
  intros [Hfiles | Hfiles]; unfold serve, post_upload, mbind, M_bind;
    rewrite Hfiles; cbn; eexists; reflexivity.
Qed.

(** C7: [GET /] answers every request, in every state the server can
    be in, with status 200 and a body whose [success] field is true. *)
Theorem get_root_always_success (req : Request) (w : World) :
  ∃ w', serve get_root req w = (w', inr tt) ∧
        statusCode (res w') = 200 ∧
        (body (res w') ≫= field "success") = Some (JBool true).
Proof. rewrite serve_get_root. eexists. split; [reflexivity|]. split; reflexivity. Qed.

(** C1, as stated, fails where the provider call rejects: the handler
    has sent nothing when the rejection leaves it. *)
Lemma provider_failure_not_answered :
  ¬ answers_ok provider_down one_file no_uploads.
Proof.
  intros (w' & message & result & Hserve & _).
  vm_compute in Hserve. discriminate Hserve.
Qed.

(** C1, amended: on a request with at least one file the handler
    passes the path of the first file, and nothing else, to the
    provider SDK; when that call resolves, it responds with status 200
    and the body [{success: true, message, result}], [result] being
    what the provider returned; when the call rejects, the rejection
    leaves the handler and no response is sent. *)
Theorem post_upload_forwards_first provider req w f rest :
  files req = Some (f :: rest) →
  let (w', completion) := serve (post_upload provider) req w in
  sdk_uploads w' = sdk_uploads w ++ [path f] ∧
  match provider (path f) with
  | Fulfilled result =>
      completion = inr tt ∧
      statusCode (res w') = 200 ∧
      body (res w') = Some (JObj [("success", JBool true);
                                  ("message", JStr "Uploaded successfully");
                                  ("result", result)])
  | Rejected e =>
      completion = inl (Thrown e) ∧ body (res w') = None
  end.
Proof.
  intros Hfiles. rewrite (serve_post_upload_cons _ _ _ _ _ Hfiles).
  destruct (provider (path f)); cbn; auto.
Qed.

Lemma post_upload_forwards_first_witness :
  let (w', completion) := serve (post_upload provider_up) two_files no_uploads in
  sdk_uploads w' = ["uploads/3f9a"] ∧
  completion = inr tt ∧
  statusCode (res w') = 200 ∧
  body (res w') =
    Some (JObj [("success", JBool true);
                ("message", JStr "Uploaded successfully");
                ("result", JObj [("secure_url", JStr "uploads/3f9a")])]).
Proof.
  exact (post_upload_forwards_first provider_up two_files no_uploads
           (stored "uploads/3f9a") [stored "uploads/77c1"] eq_refl).
Defined.

(** C2: on a multipart request with no file the handler does not
    complete: reading [path] off [req.files[0]] throws before the
    provider is called and before a response is sent. *)
Theorem post_upload_zero_files_throws provider w :
  serve (post_upload provider) zero_files w =
    ({| res := fresh_res;
        console := console w ++ [Some []];
        sdk_uploads := sdk_uploads w |},
     inl (TypeError "Cannot read properties of undefined (reading path)")).
Proof. reflexivity. Qed.

(** C5: no request is turned down for the size of a file. The status
    of the response is 200 whatever the request, never 413, and the
    response, the provider call and the completion of the handler are
    the same for any other sizes of the same files. *)
Theorem post_upload_never_rejects_for_size provider req w
    (g : MulterFile → Z) :
  let out := serve (post_upload provider) req w in
  let out' := serve (post_upload provider) (resize g req) w in
  statusCode (res out.1) = 200 ∧
  statusCode (res out.1) ≠ 413 ∧
  res out'.1 = res out.1 ∧
  sdk_uploads out'.1 = sdk_uploads out.1 ∧
  out'.2 = out.2.
Proof.
  destruct (files req) as [[|f rest]|] eqn:Hfiles.
  - destruct (serve_post_upload_nil provider req w) as [m Hm]; [auto|].
    destruct (serve_post_upload_nil provider (resize g req) w) as [m' Hm'].
    { left. unfold resize. cbn. by rewrite Hfiles. }
    assert (m' = m) as ->.
    { revert Hm Hm'. unfold serve, post_upload, mbind, M_bind, resize. cbn.
      rewrite Hfiles. cbn. congruence. }
    cbn zeta. rewrite Hm, Hm'. cbn. done.
  - assert (files (resize g req) =
              Some ({| originalname := originalname f; size := g f;
                       path := path f |} ::
                    map (λ f, {| originalname := originalname f; size := g f;
                                 path := path f |}) rest)) as Hfiles'.
    { unfold resize. cbn. by rewrite Hfiles. }
    cbn zeta.
    rewrite (serve_post_upload_cons _ _ _ _ _ Hfiles),
      (serve_post_upload_cons _ _ _ _ _ Hfiles').
    cbn. destruct (provider (path f)); cbn; done.
  - destruct (serve_post_upload_nil provider req w) as [m Hm]; [auto|].
    destruct (serve_post_upload_nil provider (resize g req) w) as [m' Hm'].
    { right. unfold resize. cbn. by rewrite Hfiles. }
    assert (m' = m) as ->.
    { revert Hm Hm'. unfold serve, post_upload, mbind, M_bind, resize. cbn.
      rewrite Hfiles. cbn. congruence. }
    cbn zeta. rewrite Hm, Hm'. cbn. done.
Qed.

End RelayFacts.

(** * The upload widget: properties *)

Section WidgetFacts.
Import Widget WidgetSpec.

Context `{Browser}.

Implicit Types (w : State) (e : Event) (item fw : UploadableFile).

(** ** What each operation does to [selectedFiles] *)

Lemma files_setSelectedFiles f w :
  selectedFiles (setSelectedFiles f w) = f (selectedFiles w).
Proof. reflexivity. Qed.

Lemma files_uploadSingleFile now b items w :
  selectedFiles (foldl (λ acc fw, uploadSingleFile now b fw acc) w items)
  = selectedFiles w.
Proof.
  revert w. induction items as [|fw items IH]; intros w; [done|].
  cbn [foldl]. by rewrite IH.
Qed.

Lemma files_handleUpload now w :
  selectedFiles (handleUpload now w) = selectedFiles w.
Proof.
  unfold handleUpload. case_match; [done|].
  cbn. by rewrite files_uploadSingleFile.
Qed.

Lemma files_settle r w : selectedFiles (settle r w) = selectedFiles w.
Proof. reflexivity. Qed.

Lemma files_allFulfil b w : selectedFiles (allFulfil b w) = selectedFiles w.
Proof. unfold allFulfil. repeat case_match; reflexivity. Qed.

Lemma files_allReject b w : selectedFiles (allReject b w) = selectedFiles w.
Proof. unfold allReject. repeat case_match; reflexivity. Qed.

Lemma files_onDrop acceptedFiles w :
  selectedFiles (onDrop acceptedFiles w)
  = selectedFiles w ++ imap (newFile w) acceptedFiles.
Proof. reflexivity. Qed.

Lemma run_snoc w trace e : run w (trace ++ [e]) = step (run w trace) e.
Proof. unfold run. by rewrite foldl_app. Qed.

Lemma run_cons w trace e : run w (e :: trace) = run (step w e) trace.
Proof. reflexivity. Qed.

(** ** Progress stays a percentage *)

Lemma percent_bounds (l t : Z) :
  0 ≤ l ≤ t → t ≠ 0 → 0 ≤ (l * 100) `div` t ≤ 100.
Proof.
  intros [Hl Ht] Hne. split.
  - apply Z.div_pos; lia.
  - apply Z.div_le_upper_bound; lia.
Qed.

Lemma item_ok_newFile w acceptedFiles :
  Forall item_ok (imap (newFile w) acceptedFiles).
Proof.
  apply Forall_lookup. intros i item. rewrite list_lookup_imap.
  destruct (acceptedFiles !! i); intros [= <-]. reflexivity.
Qed.

Lemma item_ok_step w e :
  wellformed e →
  Forall item_ok (selectedFiles w) →
  Forall item_ok (selectedFiles (step w e)).
Proof.
  intros Hwf Hok. destruct e as [fs|now|r pe now|r data|r| |i]; cbn [step].
  - rewrite files_onDrop. apply Forall_app. split; [done|].
    apply item_ok_newFile.
  - by rewrite files_handleUpload.
  - destruct (flights w !! r) as [fl|]; [|done].
    destruct (settled fl); [done|].
    unfold onUploadProgress. cbn in Hwf.
    destruct (total pe) as [t|]; [|done].
    destruct (decide (t = 0)) as [->|Hne]; [done|].
    assert (Forall item_ok
              (selectedFiles
                 (setSelectedFiles
                    (map (λ item,
                       if String.eqb (id item) (id (fileWrapper fl))
                       then {| file := file item; id := id item;
                               url := url item;
                               progress := (loaded pe * 100) `div` t;
                               est := estimate (startTime fl) now
                                        (loaded pe) t;
                               status := Uploading;
                               remoteUrl := remoteUrl item |}
                       else item)) w))) as Hgoal.
    { rewrite files_setSelectedFiles. apply List.Forall_map.
      eapply Forall_impl; [exact Hok|]. intros item Hitem. cbn beta.
      destruct (String.eqb _ _); [|done].
      unfold item_ok. cbn. by apply percent_bounds. }
    destruct t; [done|exact Hgoal|exact Hgoal].
  - destruct (flights w !! r) as [fl|]; [|done].
    destruct (settled fl); [done|].
    rewrite files_allFulfil, files_settle. unfold onFulfilled.
    rewrite files_setSelectedFiles. apply List.Forall_map.
    eapply Forall_impl; [exact Hok|]. intros item Hitem. cbn beta.
    by destruct (String.eqb _ _).
  - destruct (flights w !! r) as [fl|]; [|done].
    destruct (settled fl); [done|].
    rewrite files_allReject, files_settle. unfold onRejected.
    rewrite files_setSelectedFiles. apply List.Forall_map.
    eapply Forall_impl; [exact Hok|]. intros item Hitem. cbn beta.
    by destruct (String.eqb _ _).
  - constructor.
  - unfold removeFile. destruct (uploading w); [done|].
    rewrite files_setSelectedFiles. apply Forall_forall.
    intros item [_ Hin]%list_elem_of_filter.
    by eapply Forall_forall in Hok.
Qed.

Lemma item_ok_run trace w :
  Forall wellformed trace →
  Forall item_ok (selectedFiles w) →
  Forall item_ok (selectedFiles (run w trace)).
Proof.
  revert w. induction trace as [|e trace IH]; intros w Hwf Hok; [done|].
  apply Forall_cons in Hwf as [He Hwf]. rewrite run_cons.
  apply IH; [done|]. by apply item_ok_step.
Qed.

(** ** Drops *)

Lemma length_step w e :
  keeps e →
  length (selectedFiles (step w e))
  = (length (selectedFiles w) + accepted e)%nat.
Proof.
  intros Hkeeps.
  destruct e as [fs|now|r pe now|r data|r| |i]; cbn [step accepted];
    try done.
  - rewrite files_onDrop, length_app, length_imap. done.
  - rewrite files_handleUpload. lia.
  - destruct (flights w !! r) as [fl|]; [|lia].
    destruct (settled fl); [lia|].
    unfold onUploadProgress.
    destruct (total pe) as [[|t|t]|]; try lia;
      rewrite files_setSelectedFiles, List.length_map; lia.
  - destruct (flights w !! r) as [fl|]; [|lia].
    destruct (settled fl); [lia|].
    rewrite files_allFulfil, files_settle. unfold onFulfilled.
    rewrite files_setSelectedFiles, List.length_map. lia.
  - destruct (flights w !! r) as [fl|]; [|lia].
    destruct (settled fl); [lia|].
    rewrite files_allReject, files_settle. unfold onRejected.
    rewrite files_setSelectedFiles, List.length_map. lia.
Qed.

Lemma onDrop_appends acceptedFiles w :
  ∃ newFiles,
    selectedFiles (onDrop acceptedFiles w) = selectedFiles w ++ newFiles ∧
    map file newFiles = acceptedFiles ∧
    Forall (λ item, status item = Pending ∧ progress item = 0) newFiles.
Proof.
  exists (imap (newFile w) acceptedFiles). split; [apply files_onDrop|]. split.
  - apply list_eq. intros i.
    change (map file (imap (newFile w) acceptedFiles))
      with (file <$> imap (newFile w) acceptedFiles).
    rewrite list_lookup_fmap, list_lookup_imap.
    by destruct (acceptedFiles !! i).
  - apply Forall_lookup. intros i item. rewrite list_lookup_imap.
    destruct (acceptedFiles !! i); intros [= <-]. done.
Qed.

(** C6: as long as nothing is cleared or removed, the list holds as
    many items as the drops handed over files, whatever else happens in
    between; and a drop appends one item per file, each pending with
    progress 0. *)
Theorem drops_are_counted trace w :
  Forall keeps trace →
  length (selectedFiles (run w trace))
  = (length (selectedFiles w) + accepted_total trace)%nat ∧
  ∀ acceptedFiles w0, ∃ newFiles,
    selectedFiles (onDrop acceptedFiles w0) = selectedFiles w0 ++ newFiles ∧
    map file newFiles = acceptedFiles ∧
    Forall (λ item, status item = Pending ∧ progress item = 0) newFiles.
Proof.
  intros Hkeeps. split; [|intros; apply onDrop_appends].
  revert w. induction Hkeeps as [|e trace He _ IH]; intros w.
  - cbn. lia.
  - rewrite run_cons, IH, length_step by done.
    change (accepted_total (e :: trace))
      with (accepted e + accepted_total trace)%nat. lia.
Qed.

(** ** A failed upload *)

Lemma requests_settle r w :
  map request (flights (settle r w)) = map request (flights w).
Proof.
  cbn. change (request <$> alter
    (λ fl, {| request := request fl; fileWrapper := fileWrapper fl;
              startTime := startTime fl; batch := batch fl;
              settled := true |}) r (flights w) = request <$> flights w).
  rewrite (list_fmap_alter request _ (λ q, q)).
  - by apply list_alter_id.
  - by apply Forall_true.
Qed.

Lemma flights_allReject b w : flights (allReject b w) = flights w.
Proof. unfold allReject. repeat case_match; reflexivity. Qed.

Lemma flights_allFulfil b w : flights (allFulfil b w) = flights w.
Proof. unfold allFulfil. repeat case_match; reflexivity. Qed.

Lemma files_reject w r fl :
  flights w !! r = Some fl → settled fl = false →
  selectedFiles (step w (EvReject r))
  = map (λ item, if String.eqb (id item) (id (fileWrapper fl))
                 then failed item else item) (selectedFiles w).
Proof.
  intros Hfl Hsettled. cbn [step]. rewrite Hfl, Hsettled.
  by rewrite files_allReject, files_settle.
Qed.

Lemma requests_step w e :
  untriggered e →
  map request (flights (step w e)) = map request (flights w).
Proof.
  intros Hun.
  destruct e as [fs|now|r pe now|r data|r| |i]; cbn [step]; try done.
  - destruct (flights w !! r) as [fl|]; [|done].
    destruct (settled fl); [done|]. unfold onUploadProgress.
    by destruct (total pe) as [[|t|t]|].
  - destruct (flights w !! r) as [fl|]; [|done].
    destruct (settled fl); [done|].
    by rewrite flights_allFulfil, requests_settle.
  - destruct (flights w !! r) as [fl|]; [|done].
    destruct (settled fl); [done|].
    by rewrite flights_allReject, requests_settle.
  - unfold removeFile. by destruct (uploading w).
Qed.

Lemma requests_run trace w :
  Forall untriggered trace →
  map request (flights (run w trace)) = map request (flights w).
Proof.
  intros Hun. revert w. induction Hun as [|e trace He _ IH]; intros w; [done|].
  by rewrite run_cons, IH, requests_step.
Qed.

(** C4: when the upload of a file fails, the items carrying the
    identifier of that upload become "error" with progress 0 and are
    otherwise as they were, and every item with another identifier is
    untouched; with identifiers unique in the list, the item of the
    failed upload is the only one that changes. The failure issues no
    request, and none follows until the upload button is pressed. *)
Theorem failure_marks_only_that_item w r fl :
  flights w !! r = Some fl → settled fl = false →
  let w' := step w (EvReject r) in
  (∀ trace, Forall untriggered trace →
     map request (flights (run w' trace)) = map request (flights w)) ∧
  length (selectedFiles w') = length (selectedFiles w) ∧
  (∀ k item, selectedFiles w !! k = Some item →
     id item = id (fileWrapper fl) →
     selectedFiles w' !! k = Some (failed item)) ∧
  (∀ k item, selectedFiles w !! k = Some item →
     id item ≠ id (fileWrapper fl) →
     selectedFiles w' !! k = Some item) ∧
  (∀ k item, selectedFiles w !! k = Some item →
     id item = id (fileWrapper fl) →
     NoDup (map id (selectedFiles w)) →
     selectedFiles w' = <[k := failed item]> (selectedFiles w)) ∧
  map request (flights w') = map request (flights w).
Proof.
  intros Hfl Hsettled w'.
  assert (∀ k item, selectedFiles w !! k = Some item →
            selectedFiles w' !! k
            = Some (if String.eqb (id item) (id (fileWrapper fl))
                    then failed item else item)) as Hat.
  { intros k item Hk. unfold w'. rewrite (files_reject _ _ _ Hfl Hsettled).
    change (map ?f ?l) with (f <$> l). by rewrite list_lookup_fmap, Hk. }
  split; [|split; [|split; [|split; [|split]]]].
  - intros trace Hun. rewrite (requests_run _ _ Hun).
    by apply requests_step.
  - unfold w'. rewrite (files_reject _ _ _ Hfl Hsettled).
    apply List.length_map.
  - intros k item Hk Hid. rewrite (Hat _ _ Hk).
    by rewrite (proj2 (String.eqb_eq _ _) Hid).
  - intros k item Hk Hid. rewrite (Hat _ _ Hk).
    by rewrite (proj2 (String.eqb_neq _ _) Hid).
  - intros k item Hk Hid Hnodup. apply list_eq. intros j.
    destruct (decide (k = j)) as [<-|Hne].
    + rewrite list_lookup_insert_eq by (by eapply lookup_lt_Some).
      rewrite (Hat _ _ Hk). by rewrite (proj2 (String.eqb_eq _ _) Hid).
    + rewrite list_lookup_insert_ne by done.
      destruct (selectedFiles w !! j) as [other|] eqn:Hj.
      * rewrite (Hat _ _ Hj).
        destruct (String.eqb (id other) (id (fileWrapper fl))) eqn:Heq; [|done].
        apply String.eqb_eq in Heq. exfalso. apply Hne.
        eapply (NoDup_lookup _ _ _ (id item) Hnodup).
        -- change (map ?f ?l) with (f <$> l).
           by rewrite list_lookup_fmap, Hk.
        -- change (map ?f ?l) with (f <$> l).
           rewrite list_lookup_fmap, Hj. cbn. congruence.
      * unfold w'. rewrite (files_reject _ _ _ Hfl Hsettled).
        change (map ?f ?l) with (f <$> l). by rewrite list_lookup_fmap, Hj.
  - unfold w'. cbn [step]. rewrite Hfl, Hsettled.
    by rewrite flights_allReject, requests_settle.
Qed.

(** C3, amended: with progress events that report between nothing and
    the whole request as sent, the progress of every item, in every
    state the widget reaches, lies within [0,100], and it is 100 only
    when the item is "success" or still "uploading". *)
Theorem progress_is_percentage trace item :
  Forall wellformed trace →
  item ∈ selectedFiles (run initial trace) →
  0 ≤ progress item ≤ 100 ∧
  (progress item = 100 → status item = Success ∨ status item = Uploading).
Proof.
  intros Hwf Hin.
  assert (item_ok item) as Hok.
  { eapply Forall_forall; [|exact Hin].
    apply item_ok_run; [done|]. constructor. }
  unfold item_ok in Hok. destruct (status item); split; try lia; auto.
Qed.

(** ** Removing and clearing *)

(** C8: while [uploading] is set, [removeFile] changes nothing; when
    it is not set, [removeFile i] keeps, in their order and as they
    are, the items whose identifier is not [i], and drops the others. *)
Theorem removeFile_frame i w :
  if uploading w then removeFile i w = w
  else
    selectedFiles (removeFile i w) = filter (λ f, id f ≠ i) (selectedFiles w) ∧
    (∀ item, item ∈ selectedFiles (removeFile i w) ↔
               item ∈ selectedFiles w ∧ id item ≠ i) ∧
    sublist (selectedFiles (removeFile i w)) (selectedFiles w) ∧
    uploading (removeFile i w) = false.
Proof.
  unfold removeFile. destruct (uploading w) eqn:Hup; [done|].
  rewrite files_setSelectedFiles. split; [done|]. split; [|split].
  - intros item. rewrite list_elem_of_filter. tauto.
  - apply sublist_filter.
  - exact Hup.
Qed.

Lemma blobs_uploadSingleFile now b items w :
  blobs (foldl (λ acc fw, uploadSingleFile now b fw acc) w items) = blobs w.
Proof.
  revert w. induction items as [|fw items IH]; intros w; [done|].
  cbn [foldl]. by rewrite IH.
Qed.

Lemma blobs_step w e : (blobs w ≤ blobs (step w e))%nat.
Proof.
  destruct e as [fs|now|r pe now|r data|r| |i]; cbn [step].
  - cbn. lia.
  - unfold handleUpload. case_match; [done|]. cbn.
    by rewrite blobs_uploadSingleFile.
  - destruct (flights w !! r) as [fl|]; [|done].
    destruct (settled fl); [done|]. unfold onUploadProgress.
    by destruct (total pe) as [[|t|t]|].
  - destruct (flights w !! r) as [fl|]; [|done].
    destruct (settled fl); [done|].
    unfold allFulfil. by repeat case_match.
  - destruct (flights w !! r) as [fl|]; [|done].
    destruct (settled fl); [done|].
    unfold allReject. by repeat case_match.
  - done.
  - unfold removeFile. by destruct (uploading w).
Qed.

Lemma minted_mono w w' item :
  (blobs w ≤ blobs w')%nat → minted w item → minted w' item.
Proof. intros Hle (n & Hn & Hurl). exists n. split; [lia|done]. Qed.

(** The updates of the callbacks keep the file and the URL of an
    item. *)
Lemma minted_update w w' (f : UploadableFile → UploadableFile) items :
  (blobs w ≤ blobs w')%nat →
  (∀ item, url (f item) = url item ∧ file (f item) = file item) →
  Forall (minted w) items → Forall (minted w') (map f items).
Proof.
  intros Hle Hf Hitems. apply List.Forall_map.
  eapply Forall_impl; [exact Hitems|]. intros item (n & Hn & Hurl).
  destruct (Hf item) as [Hu Hfile]. exists n. split; [lia|].
  by rewrite Hu, Hfile.
Qed.

Lemma minted_step w e :
  Forall (minted w) (selectedFiles w) →
  Forall (minted (step w e)) (selectedFiles (step w e)).
Proof.
  intros Hm. pose proof (blobs_step w e) as Hle.
  destruct e as [fs|now|r pe now|r data|r| |i]; cbn [step] in *.
  - rewrite files_onDrop. apply Forall_app. split.
    + eapply Forall_impl; [exact Hm|]. intros item. by apply minted_mono.
    + apply Forall_lookup. intros k item. rewrite list_lookup_imap.
      destruct (fs !! k) as [f|] eqn:Hk; intros [= <-].
      exists (blobs w + k)%nat. split; [|done].
      apply lookup_lt_Some in Hk. cbn. lia.
  - rewrite files_handleUpload.
    eapply Forall_impl; [exact Hm|]. intros item. by apply minted_mono.
  - destruct (flights w !! r) as [fl|]; [|done].
    destruct (settled fl); [done|]. unfold onUploadProgress in *.
    destruct (total pe) as [[|t|t]|]; try done;
      rewrite files_setSelectedFiles; (apply (minted_update w); [done| |done]);
      intros item; by destruct (String.eqb _ _).
  - destruct (flights w !! r) as [fl|]; [|done].
    destruct (settled fl); [done|].
    rewrite files_allFulfil, files_settle. unfold onFulfilled.
    rewrite files_setSelectedFiles. apply (minted_update w); [done| |done].
    intros item; by destruct (String.eqb _ _).
  - destruct (flights w !! r) as [fl|]; [|done].
    destruct (settled fl); [done|].
    rewrite files_allReject, files_settle. unfold onRejected.
    rewrite files_setSelectedFiles. apply (minted_update w); [done| |done].
    intros item; by destruct (String.eqb _ _).
  - constructor.
  - unfold removeFile in *. destruct (uploading w); [done|].
    rewrite files_setSelectedFiles. apply Forall_forall.
    intros item [_ Hin]%list_elem_of_filter.
    eapply minted_mono; [exact Hle|]. by eapply Forall_forall in Hm.
Qed.

(** In every state the widget reaches, the URL of an item is the blob
    URL that [onDrop] had minted for its file. *)
Lemma preview_urls_are_minted trace :
  Forall (minted (run initial trace)) (selectedFiles (run initial trace)).
Proof.
  induction trace as [|e trace IH] using rev_ind; [constructor|].
  rewrite run_snoc. by apply minted_step.
Qed.

(** C9: after [resetUploader] the list is empty and [uploading] is
    false, and the preview URL of every item that was in the list, the
    blob URL minted for it ([preview_urls_are_minted]), has been
    revoked. *)
Theorem resetUploader_clears w :
  selectedFiles (resetUploader w) = [] ∧
  uploading (resetUploader w) = false ∧
  revoked (resetUploader w) = revoked w ++ map url (selectedFiles w) ∧
  Forall (λ item, url item ∈ revoked (resetUploader w)) (selectedFiles w).
Proof.
  split; [done|]. split; [done|]. split; [done|].
  apply Forall_forall. intros item Hin. cbn.
  apply elem_of_app. right. change (map url ?l) with (url <$> l).
  apply list_elem_of_fmap. eauto.
Qed.

(** ** Starting the uploads *)

Lemma flights_uploadSingleFile now b items w :
  flights (foldl (λ acc fw, uploadSingleFile now b fw acc) w items)
  = flights w ++
    map (λ fw, {| request := upload_request fw; fileWrapper := fw;
                  startTime := now; batch := b; settled := false |}) items.
Proof.
  revert w. induction items as [|fw items IH]; intros w; cbn [foldl map].
  - by rewrite app_nil_r.
  - rewrite IH. cbn. by rewrite <- app_assoc.
Qed.

(** C10: [handleUpload] sends one request per item of the list, in
    the order of the list and whatever the status of the item, an item
    in "success" included; on an empty list it sends nothing and leaves
    the state as it is. *)
Theorem handleUpload_posts_every_item now w :
  let w' := handleUpload now w in
  ∃ launched,
    flights w' = flights w ++ launched ∧
    map fileWrapper launched = selectedFiles w ∧
    map request launched = map upload_request (selectedFiles w) ∧
    (∀ k item, selectedFiles w !! k = Some item →
       ∃ fl, launched !! k = Some fl ∧ fileWrapper fl = item ∧
             request fl = upload_request item ∧ settled fl = false) ∧
    match selectedFiles w with
    | [] => w' = w
    | _ :: _ => uploading w' = true
    end.
Proof.
  intros w'. unfold w', handleUpload.
  destruct (selectedFiles w) as [|item0 items] eqn:Hfiles.
  - exists []. cbn. rewrite app_nil_r. repeat split; try done.
  - cbn [length Nat.eqb].
    exists (map (λ fw, {| request := upload_request fw; fileWrapper := fw;
                          startTime := now; batch := length (batches w);
                          settled := false |}) (item0 :: items)).
    split; [|split; [|split; [|split]]].
    + cbn [flights with_batches]. by rewrite flights_uploadSingleFile.
    + rewrite List.map_map. cbn [fileWrapper]. apply List.map_id.
    + rewrite List.map_map. done.
    + intros k item Hk. change (map ?f ?l) with (f <$> l).
      rewrite list_lookup_fmap, Hk. cbn. eauto.
    + cbn [uploading with_batches].
      generalize (item0 :: items). intros l.
      assert (∀ acc, uploading
                (foldl (λ acc fw, uploadSingleFile now (length (batches w))
                                    fw acc) acc l) = uploading acc) as Hup.
      { induction l as [|x l IH]; intros acc; [done|]. cbn [foldl].
        by rewrite IH. }
      by rewrite Hup.
Qed.

End WidgetFacts.

(** * Worked executions *)

Section WidgetRuns.
Import Widget WidgetSpec.

#[local] Existing Instance sample_browser.

(** C3, as stated, fails on an execution the user and the network can
    produce: the last progress event of a request reports all bytes
    sent, and the item shows 100 while its status is "uploading". *)
Lemma all_bytes_sent_not_as_specified :
  feasible initial all_bytes_sent = true ∧
  Forall wellformed all_bytes_sent ∧
  ¬ progress_as_specified (run initial all_bytes_sent).
Proof.
  split; [reflexivity|]. split.
  - repeat constructor; cbn; lia.
  - intros Hspec. destruct (Hspec photo_sent) as [_ Hsuccess].
    + apply (list_elem_of_lookup_2 _ 0%nat). reflexivity.
    + specialize (Hsuccess eq_refl). discriminate Hsuccess.
Qed.

Lemma progress_is_percentage_witness :
  0 ≤ progress photo_sent ≤ 100 ∧
  (progress photo_sent = 100 →
   status photo_sent = Success ∨ status photo_sent = Uploading).
Proof.
  apply (progress_is_percentage all_bytes_sent photo_sent).
  - repeat constructor; cbn; lia.
  - apply (list_elem_of_lookup_2 _ 0%nat). reflexivity.
Defined.

Lemma drops_are_counted_witness :
  length (selectedFiles (run initial second_fails)) = 2%nat.
Proof.
  apply (drops_are_counted second_fails initial).
  repeat constructor.
Defined.

Lemma failure_marks_only_that_item_witness :
  ∃ fl item,
    flights two_in_flight !! 1%nat = Some fl ∧
    selectedFiles two_in_flight !! 1%nat = Some item ∧
    selectedFiles (step two_in_flight (EvReject 1))
    = <[1%nat := failed item]> (selectedFiles two_in_flight) ∧
    map request (flights (step two_in_flight (EvReject 1)))
    = map request (flights two_in_flight).
Proof.
  eexists _, _. split; [reflexivity|]. split; [reflexivity|].
  destruct (failure_marks_only_that_item two_in_flight 1 _ eq_refl eq_refl)
    as (_ & _ & _ & _ & Hexact & Hrequests).
  split; [|exact Hrequests].
  apply Hexact; [reflexivity|reflexivity|].
  compute_done.
Defined.

(** After a failed batch the upload button is offered again, and a
    second trigger sends a request for the item that already
    succeeded as well. *)
Lemma second_trigger_posts_succeeded_item :
  feasible initial (second_fails ++ [EvUpload 2000]) = true ∧
  status <$> selectedFiles (run initial second_fails) = [Success; Error] ∧
  length (flights (run initial (second_fails ++ [EvUpload 2000]))) = 4%nat ∧
  (fileWrapper <$> flights (run initial (second_fails ++ [EvUpload 2000])))
    !! 2%nat
  = selectedFiles (run initial second_fails) !! 0%nat.
Proof. repeat split; reflexivity. Qed.

End WidgetRuns.

(** * The relay endpoint: what each request leaves behind *)

Section RelayEffects.
Import Relay RelaySpec.

Implicit Types (provider : string → Settled) (req : Request) (w : World).

(** Whatever the request and the provider, [POST /upload] logs
    [req.files] once, sets no header, calls the provider at most once
    (with the path of the first file, and not at all without one), and
    has sent a body exactly when it completes. *)
Theorem post_upload_effects provider req w :
  let out := serve (post_upload provider) req w in
  console out.1 = console w ++ [files req] ∧
  headers (res out.1) = [] ∧
  sdk_uploads out.1
  = sdk_uploads w ++ match files req with
                     | Some (f :: _) => [path f]
                     | _ => []
                     end ∧
  (out.2 = inr tt ↔ is_Some (body (res out.1))).
Proof.
  destruct (files req) as [[|f rest]|] eqn:Hfiles; cbn zeta.
  - destruct (serve_post_upload_nil provider req w) as [m ->]; [auto|].
    cbn. rewrite Hfiles, app_nil_r. repeat split; try done;
      try (intros [? [=]]).
  - rewrite (serve_post_upload_cons _ _ _ _ _ Hfiles).
    destruct (provider (path f)); cbn; rewrite Hfiles;
      repeat split; try done; eauto; try (intros [? [=]]).
  - destruct (serve_post_upload_nil provider req w) as [m ->]; [auto|].
    cbn. rewrite Hfiles, app_nil_r. repeat split; try done;
      try (intros [? [=]]).
Qed.

(** Two requests whose first files are stored at the same path get
    the same response, provider call and completion: the other files,
    and the name and size of the first, play no part. *)
Theorem post_upload_reads_first_path_only provider req req' w f rest f' rest' :
  files req = Some (f :: rest) →
  files req' = Some (f' :: rest') →
  path f = path f' →
  let out := serve (post_upload provider) req w in
  let out' := serve (post_upload provider) req' w in
  res out'.1 = res out.1 ∧
  sdk_uploads out'.1 = sdk_uploads out.1 ∧
  out'.2 = out.2.
Proof.
  intros Hfiles Hfiles' Hpath. cbn zeta.
  rewrite (serve_post_upload_cons _ _ _ _ _ Hfiles),
    (serve_post_upload_cons _ _ _ _ _ Hfiles'), <- Hpath.
  by destruct (provider (path f)).
Qed.

Lemma post_upload_reads_first_path_only_witness :
  let out := serve (post_upload provider_up) one_file no_uploads in
  let out' := serve (post_upload provider_up) two_files no_uploads in
  res out'.1 = res out.1 ∧
  sdk_uploads out'.1 = sdk_uploads out.1 ∧
  out'.2 = out.2.
Proof.
  exact (post_upload_reads_first_path_only provider_up one_file two_files
           no_uploads (stored "uploads/3f9a") [] (stored "uploads/3f9a")
           [stored "uploads/77c1"] eq_refl eq_refl eq_refl).
Defined.

End RelayEffects.

(** * The upload widget: the lifecycle of an upload *)

Section WidgetLifecycle.
Import Widget WidgetSpec LifecycleSpec.

Context `{Browser}.

Implicit Types (w : State) (e : Event) (item fw : UploadableFile).

(** ** Updating the items of one identifier *)

Lemma lookup_update (g : UploadableFile → UploadableFile) (i : string)
    (items : list UploadableFile) k item :
  items !! k = Some item →
  map (λ item, if String.eqb (id item) i then g item else item) items !! k
  = Some (if String.eqb (id item) i then g item else item).
Proof.
  intros Hk. change (map ?f ?l) with (f <$> l).
  by rewrite list_lookup_fmap, Hk.
Qed.

Lemma update_absent (g : UploadableFile → UploadableFile) (i : string)
    (items : list UploadableFile) :
  Forall (λ item, id item ≠ i) items →
  map (λ item, if String.eqb (id item) i then g item else item) items = items.
Proof.
  induction 1 as [|item items Hne _ IH]; [done|]. cbn [map].
  by rewrite IH, (proj2 (String.eqb_neq _ _) Hne).
Qed.

Lemma update_identity (g : UploadableFile → UploadableFile) (i : string)
    (items : list UploadableFile) :
  (∀ item, identity (g item) = identity item) →
  map identity
    (map (λ item, if String.eqb (id item) i then g item else item) items)
  = map identity items.
Proof.
  intros Hg. rewrite List.map_map. apply List.map_ext. intros item.
  by destruct (String.eqb _ _).
Qed.

Lemma files_fulfil w r fl data :
  flights w !! r = Some fl → settled fl = false →
  selectedFiles (step w (EvFulfil r data))
  = map (λ item, if String.eqb (id item) (id (fileWrapper fl))
                 then succeeded data item else item) (selectedFiles w).
Proof.
  intros Hfl Hsettled. cbn [step]. rewrite Hfl, Hsettled.
  by rewrite files_allFulfil, files_settle.
Qed.

Lemma files_progress w r fl pe now t :
  flights w !! r = Some fl → settled fl = false →
  total pe = Some t → t ≠ 0 →
  selectedFiles (step w (EvProgress r pe now))
  = map (λ item, if String.eqb (id item) (id (fileWrapper fl))
                 then advanced fl (loaded pe) t now item else item)
      (selectedFiles w).
Proof.
  intros Hfl Hsettled Htotal Hne. cbn [step]. rewrite Hfl, Hsettled.
  unfold onUploadProgress. rewrite Htotal. by destruct t.
Qed.

Lemma flights_progress w r pe now :
  flights (step w (EvProgress r pe now)) = flights w.
Proof.
  cbn [step]. destruct (flights w !! r) as [fl|]; [|done].
  destruct (settled fl); [done|]. unfold onUploadProgress.
  by destruct (total pe) as [[|t|t]|].
Qed.

(** ** A successful upload *)

(** When the upload of a file succeeds, the items carrying the
    identifier of that upload become "success" with progress 100 and
    with [response.data.secure_url] as remote URL, which is none when
    the response has no such key; every item with another identifier
    is untouched, and no request is issued. *)
Theorem success_marks_that_item w r fl data :
  flights w !! r = Some fl → settled fl = false →
  let w' := step w (EvFulfil r data) in
  length (selectedFiles w') = length (selectedFiles w) ∧
  (∀ k item, selectedFiles w !! k = Some item →
     id item = id (fileWrapper fl) →
     selectedFiles w' !! k = Some (succeeded data item)) ∧
  (∀ k item, selectedFiles w !! k = Some item →
     id item ≠ id (fileWrapper fl) →
     selectedFiles w' !! k = Some item) ∧
  (assoc "secure_url" data = None →
   ∀ item, remoteUrl (succeeded data item) = None) ∧
  map request (flights w') = map request (flights w).
Proof.
  intros Hfl Hsettled w'. unfold w'.
  rewrite (files_fulfil _ _ _ _ Hfl Hsettled).
  split; [apply List.length_map|]. split; [|split; [|split]].
  - intros k item Hk Hid. rewrite (lookup_update _ _ _ _ _ Hk).
    by rewrite (proj2 (String.eqb_eq _ _) Hid).
  - intros k item Hk Hid. rewrite (lookup_update _ _ _ _ _ Hk).
    by rewrite (proj2 (String.eqb_neq _ _) Hid).
  - by intros Hnone item.
  - by apply requests_step.
Qed.

(** ** Progress events *)




(** Of two progress events of a request with the same total, the one
    that reports more bytes sent does not show less progress. *)
Theorem progress_follows_bytes w r fl pe1 pe2 now1 now2 t k item :
  flights w !! r = Some fl → settled fl = false →
  total pe1 = Some t → total pe2 = Some t → 0 < t →
  loaded pe1 ≤ loaded pe2 →
  selectedFiles w !! k = Some item → id item = id (fileWrapper fl) →
  let w1 := step w (EvProgress r pe1 now1) in
  let w2 := step w1 (EvProgress r pe2 now2) in
  ∃ item1 item2,
    selectedFiles w1 !! k = Some item1 ∧
    selectedFiles w2 !! k = Some item2 ∧
    progress item1 ≤ progress item2.
Proof.
  intros Hfl Hsettled Ht1 Ht2 Hpos Hle Hk Hid w1 w2.
  assert (t ≠ 0) as Hne by lia.
  assert (selectedFiles w1 !! k = Some (advanced fl (loaded pe1) t now1 item))
    as Hk1.
  { unfold w1. rewrite (files_progress _ _ _ _ _ _ Hfl Hsettled Ht1 Hne).
    rewrite (lookup_update _ _ _ _ _ Hk).
    by rewrite (proj2 (String.eqb_eq _ _) Hid). }
  assert (flights w1 !! r = Some fl) as Hfl1.
  { unfold w1. by rewrite flights_progress. }
  eexists _, _. split; [exact Hk1|]. split.
  - unfold w2. rewrite (files_progress _ _ _ _ _ _ Hfl1 Hsettled Ht2 Hne).
    rewrite (lookup_update _ _ _ _ _ Hk1). cbn [advanced id].
    by rewrite (proj2 (String.eqb_eq _ _) Hid).
  - cbn. apply Z.div_le_mono; lia.
Qed.

(** ** What the lifecycle leaves alone *)

Lemma identity_step w e :
  stays e →
  map identity (selectedFiles (step w e)) = map identity (selectedFiles w).
Proof.
  intros Hstays.
  destruct e as [fs|now|r pe now|r data|r| |i]; cbn [step]; try done.
  - by rewrite files_handleUpload.
  - destruct (flights w !! r) as [fl|]; [|done].
    destruct (settled fl); [done|]. unfold onUploadProgress.
    destruct (total pe) as [[|t|t]|]; try done;
      rewrite files_setSelectedFiles; by apply update_identity.
  - destruct (flights w !! r) as [fl|]; [|done].
    destruct (settled fl); [done|].
    rewrite files_allFulfil, files_settle. unfold onFulfilled.
    rewrite files_setSelectedFiles. by apply update_identity.
  - destruct (flights w !! r) as [fl|]; [|done].
    destruct (settled fl); [done|].
    rewrite files_allReject, files_settle. unfold onRejected.
    rewrite files_setSelectedFiles. by apply update_identity.
Qed.

(** Starting the uploads and the progress, success and failure of any
    of them never add, drop or reorder items, and never change the
    identifier, the file or the preview URL of an item. *)
Theorem lifecycle_keeps_identity trace w :
  Forall stays trace →
  map identity (selectedFiles (run w trace))
  = map identity (selectedFiles w).
Proof.
  intros Hstays. revert w.
  induction Hstays as [|e trace He _ IH]; intros w; [done|].
  by rewrite run_cons, IH, identity_step.
Qed.

(** The network events of an upload whose identifier no item of the
    list carries, as after the removal of its item, leave the list as
    it is. *)
Theorem unlisted_upload_changes_nothing w r fl e :
  flights w !! r = Some fl → about r e →
  Forall (λ item, id item ≠ id (fileWrapper fl)) (selectedFiles w) →
  selectedFiles (step w e) = selectedFiles w.
Proof.
  intros Hfl Habout Habsent.
  destruct e as [fs|now|r' pe now|r' data|r'| |i]; cbn in Habout;
    try done; subst r'; cbn [step]; rewrite Hfl;
    destruct (settled fl); try done.
  - unfold onUploadProgress.
    destruct (total pe) as [[|t|t]|]; try done;
      rewrite files_setSelectedFiles; by apply update_absent.
  - rewrite files_allFulfil, files_settle. unfold onFulfilled.
    rewrite files_setSelectedFiles. by apply update_absent.
  - rewrite files_allReject, files_settle. unfold onRejected.
    rewrite files_setSelectedFiles. by apply update_absent.
Qed.

End WidgetLifecycle.

(** * The upload widget: batches *)

Section WidgetBatches.
Import Widget WidgetSpec LifecycleSpec.

Context `{Browser}.

Implicit Types (w : State) (e : Event) (item fw : UploadableFile).

(** ** Counting through an update in place *)

Lemma length_filter_alter {A} (P : A → Prop) `{!∀ x, Decision (P x)}
    (f : A → A) (l : list A) i x :
  l !! i = Some x →
  (length (filter P (alter f i l)) + (if decide (P x) then 1 else 0)
   = length (filter P l) + (if decide (P (f x)) then 1 else 0))%nat.
Proof.
  revert i. induction l as [|a l IH]; intros [|i] Hi; simplify_eq/=.
  - rewrite !filter_cons.
    destruct (decide (P x)), (decide (P (f x))); cbn [length]; lia.
  - rewrite !filter_cons. specialize (IH i Hi).
    destruct (decide (P a)); cbn [length]; lia.
Qed.

Lemma length_filter_insert {A} (P : A → Prop) `{!∀ x, Decision (P x)}
    (l : list A) i x y :
  l !! i = Some x →
  (length (filter P (<[i:=y]> l)) + (if decide (P x) then 1 else 0)
   = length (filter P l) + (if decide (P y) then 1 else 0))%nat.
Proof.
  intros Hi. rewrite list_insert_alter.
  apply (length_filter_alter P (λ _, y) l i x Hi).
Qed.

Lemma filter_none {A} (P : A → Prop) `{!∀ x, Decision (P x)} (l : list A) :
  Forall (λ x, ¬ P x) l → filter P l = [].
Proof.
  induction 1 as [|x l Hx _ IH]; [done|]. by rewrite filter_cons_False.
Qed.

Lemma filter_all {A} (P : A → Prop) `{!∀ x, Decision (P x)} (l : list A) :
  Forall P l → filter P l = l.
Proof.
  induction 1 as [|x l Hx _ IH]; [done|].
  rewrite filter_cons_True by done. by rewrite IH.
Qed.

(** ** What the operations do to requests, batches, flag and notices *)

Lemma batches_uploadSingleFile now b items w :
  batches (foldl (λ acc fw, uploadSingleFile now b fw acc) w items)
  = batches w.
Proof.
  revert w. induction items as [|fw items IH]; intros w; [done|].
  cbn [foldl]. by rewrite IH.
Qed.

Lemma notices_uploadSingleFile now b items w :
  notices (foldl (λ acc fw, uploadSingleFile now b fw acc) w items)
  = notices w.
Proof.
  revert w. induction items as [|fw items IH]; intros w; [done|].
  cbn [foldl]. by rewrite IH.
Qed.

Lemma uploading_uploadSingleFile now b items w :
  uploading (foldl (λ acc fw, uploadSingleFile now b fw acc) w items)
  = uploading w.
Proof.
  revert w. induction items as [|fw items IH]; intros w; [done|].
  cbn [foldl]. by rewrite IH.
Qed.

(** [handleUpload] on a list with an item. *)
Lemma handleUpload_started now w :
  selectedFiles w ≠ [] →
  flights (handleUpload now w)
  = flights w ++
    map (λ fw, {| request := upload_request fw; fileWrapper := fw;
                  startTime := now; batch := length (batches w);
                  settled := false |}) (selectedFiles w) ∧
  batches (handleUpload now w)
  = batches w ++ [{| awaited := length (selectedFiles w);
                     fulfilled := 0%nat; joined := false |}] ∧
  uploading (handleUpload now w) = true ∧
  notices (handleUpload now w) = notices w.
Proof.
  intros Hne. unfold handleUpload.
  destruct (selectedFiles w) as [|item0 items] eqn:Hfiles; [done|].
  cbn [length Nat.eqb flights batches uploading notices with_batches].
  rewrite flights_uploadSingleFile, batches_uploadSingleFile,
    uploading_uploadSingleFile, notices_uploadSingleFile.
  done.
Qed.

Lemma handleUpload_empty now w :
  selectedFiles w = [] → handleUpload now w = w.
Proof. intros Hnil. unfold handleUpload. by rewrite Hnil. Qed.

(** A fulfilment reaching [Promise.all]. *)
Lemma allFulfil_spec b w :
  flights (allFulfil b w) = flights w ∧
  match batches w !! b with
  | Some bt =>
      if joined bt
      then batches (allFulfil b w) = batches w ∧
           uploading (allFulfil b w) = uploading w ∧
           notices (allFulfil b w) = notices w
      else if decide (S (fulfilled bt) = awaited bt)
      then batches (allFulfil b w)
           = <[b := {| awaited := awaited bt; fulfilled := S (fulfilled bt);
                       joined := true |}]> (batches w) ∧
           uploading (allFulfil b w) = false ∧
           notices (allFulfil b w)
           = notices w ++ [ConsoleLog "All uploads complete"]
      else batches (allFulfil b w)
           = <[b := {| awaited := awaited bt; fulfilled := S (fulfilled bt);
                       joined := false |}]> (batches w) ∧
           uploading (allFulfil b w) = uploading w ∧
           notices (allFulfil b w) = notices w
  | None => batches (allFulfil b w) = batches w ∧
            uploading (allFulfil b w) = uploading w ∧
            notices (allFulfil b w) = notices w
  end.
Proof.
  split; [apply flights_allFulfil|]. unfold allFulfil.
  destruct (batches w !! b) as [bt|]; [|done].
  destruct (joined bt); [done|].
  case_decide as Hlast.
  - by rewrite (proj2 (Nat.eqb_eq _ _) Hlast).
  - by rewrite (proj2 (Nat.eqb_neq _ _) Hlast).
Qed.

(** A rejection reaching [Promise.all]. *)
Lemma allReject_spec b w :
  flights (allReject b w) = flights w ∧
  match batches w !! b with
  | Some bt =>
      if joined bt
      then batches (allReject b w) = batches w ∧
           uploading (allReject b w) = uploading w ∧
           notices (allReject b w) = notices w
      else batches (allReject b w)
           = <[b := {| awaited := awaited bt; fulfilled := fulfilled bt;
                       joined := true |}]> (batches w) ∧
           uploading (allReject b w) = false ∧
           notices (allReject b w)
           = notices w ++ [ConsoleError "Upload failed:";
                           Alert "One or more uploads failed."]
  | None => batches (allReject b w) = batches w ∧
            uploading (allReject b w) = uploading w ∧
            notices (allReject b w) = notices w
  end.
Proof.
  split; [apply flights_allReject|]. unfold allReject.
  destruct (batches w !! b) as [bt|]; [|done].
  destruct (joined bt); [done|]. cbn. by rewrite <- app_assoc.
Qed.

(** The states before and after the callbacks of a settled request
    have run, [Promise.all] apart. *)
Lemma settle_flights r w :
  flights (settle r w)
  = alter (λ fl, {| request := request fl; fileWrapper := fileWrapper fl;
                    startTime := startTime fl; batch := batch fl;
                    settled := true |}) r (flights w).
Proof. reflexivity. Qed.

Lemma outstanding_settled b (l l' : list Flight) r fl :
  l !! r = Some fl → settled fl = false →
  l' = alter (λ fl, {| request := request fl; fileWrapper := fileWrapper fl;
                       startTime := startTime fl; batch := batch fl;
                       settled := true |}) r l →
  (length (filter (λ fl, batch fl = b ∧ settled fl = false) l') +
   (if decide (batch fl = b) then 1 else 0)
   = length (filter (λ fl, batch fl = b ∧ settled fl = false) l))%nat.
Proof.
  intros Hr Hsettled ->.
  pose proof (length_filter_alter
                (λ fl, batch fl = b ∧ settled fl = false)
                (λ fl, {| request := request fl;
                          fileWrapper := fileWrapper fl;
                          startTime := startTime fl; batch := batch fl;
                          settled := true |}) l r fl Hr) as Hcount.
  cbn in Hcount. rewrite Hsettled in Hcount.
  destruct (decide (batch fl = b)) as [Hb|Hb].
  - rewrite decide_True in Hcount by done.
    rewrite decide_False in Hcount by (intros [_ [=]]). lia.
  - rewrite decide_False in Hcount by (by intros [? _]).
    rewrite decide_False in Hcount by (intros [_ [=]]). lia.
Qed.

Lemma batches_sound_same w w' :
  flights w' = flights w → batches w' = batches w →
  (uploading w' = true → uploading w = true) →
  batches_sound w → batches_sound w'.
Proof.
  intros Hf Hb Hu (Hcount & Hrange & Hflag).
  unfold batches_sound, outstanding. rewrite Hf, Hb. auto.
Qed.

Lemma batches_sound_started now w :
  selectedFiles w ≠ [] →
  batches_sound w → batches_sound (handleUpload now w).
Proof.
  intros Hne (Hcount & Hrange & Hflag).
  destruct (handleUpload_started now w Hne) as (Hf & Hb & Hu & _).
  unfold batches_sound, outstanding. rewrite Hf, Hb.
  set (launch := λ fw, {| request := upload_request fw; fileWrapper := fw;
                          startTime := now; batch := length (batches w);
                          settled := false |}).
  split; [|split].
  - intros b bt Hbt Hjoined. rewrite filter_app, length_app.
    apply lookup_snoc_Some in Hbt as [[Hlt Hbt]|[-> <-]].
    + destruct (Hcount b bt Hbt Hjoined) as [Hsum Hless].
      rewrite (filter_none _ (map launch (selectedFiles w))).
      { unfold outstanding in Hsum. cbn [length]. lia. }
      apply List.Forall_map, Forall_true. intros fw. cbn. lia.
    + rewrite (filter_none _ (flights w)).
      2:{ eapply Forall_impl; [exact Hrange|]. intros fl Hfl. cbn beta in *.
          lia. }
      rewrite (filter_all _ (map launch (selectedFiles w))).
      2:{ by apply List.Forall_map, Forall_true. }
      rewrite List.length_map. cbn.
      destruct (selectedFiles w); [done|]. cbn. lia.
  - rewrite length_app. cbn [length]. apply Forall_app. split.
    + eapply Forall_impl; [exact Hrange|]. intros fl Hfl. cbn beta in *. lia.
    + apply List.Forall_map. apply Forall_true. intros fw. cbn. lia.
  - intros _. exists (length (batches w)). eexists.
    split; [apply lookup_snoc_Some; by right|done].
Qed.

(** A request settles: its flight is marked, and the batch it belongs
    to is left alone (it is unknown or joined), advanced, or joined. *)
Lemma batches_sound_settled w w' r fl bt' :
  flights w !! r = Some fl → settled fl = false →
  flights w'
  = alter (λ fl, {| request := request fl; fileWrapper := fileWrapper fl;
                    startTime := startTime fl; batch := batch fl;
                    settled := true |}) r (flights w) →
  (batches w' = batches w ∧
   (batches w !! batch fl = None ∨
    ∃ bt, batches w !! batch fl = Some bt ∧ joined bt = true) ∧
   (uploading w' = true → uploading w = true)) ∨
  (∃ bt, batches w !! batch fl = Some bt ∧ joined bt = false ∧
         batches w' = <[batch fl := bt']> (batches w) ∧
         ((joined bt' = true ∧ uploading w' = false) ∨
          (joined bt' = false ∧ fulfilled bt' = S (fulfilled bt) ∧
           awaited bt' = awaited bt ∧ S (fulfilled bt) ≠ awaited bt))) →
  batches_sound w → batches_sound w'.
Proof.
  intros Hr Hs Hf Hrel (Hcount & Hrange & Hflag).
  assert (∀ b, (length (outstanding b w') +
                (if decide (batch fl = b) then 1 else 0)
                = length (outstanding b w))%nat) as Hout.
  { intros b. unfold outstanding.
    by apply (outstanding_settled b (flights w) (flights w') r fl). }
  assert (Forall (λ fl, (batch fl < length (batches w))%nat) (flights w'))
    as Hrange'.
  { rewrite Hf. apply Forall_alter; [done|]. by intros x _ Hx. }
  destruct Hrel as [(Hb & Hgone & Hu)|(bt & Hbt & Hj & Hb & Hkind)];
    unfold batches_sound; rewrite Hb.
  - split; [|split; [done|]].
    + intros b bt Hbt Hj. destruct (Hcount b bt Hbt Hj) as [Hsum Hless].
      specialize (Hout b). destruct (decide (batch fl = b)) as [<-|Hne].
      * destruct Hgone as [Hnone|(bt0 & Hbt0 & Hj0)]; congruence.
      * split; lia.
    + intros Hu'. apply Hflag. auto.
  - rewrite length_insert. split; [|split; [done|]].
    + intros b bt1 Hbt1 Hj1.
      apply list_lookup_insert_Some in Hbt1 as [(<- & <- & Hlt)|(Hne & Hbt1)].
      * destruct Hkind as [[Hjt _]|(Hjf & Hful & Haw & Hnl)]; [congruence|].
        destruct (Hcount _ _ Hbt Hj) as [Hsum Hless].
        specialize (Hout (batch fl)). rewrite decide_True in Hout by done.
        rewrite Hful, Haw. split; lia.
      * destruct (Hcount _ _ Hbt1 Hj1) as [Hsum Hless].
        specialize (Hout b). rewrite decide_False in Hout by done.
        split; lia.
    + intros Hu'. destruct Hkind as [[_ Hu0]|(Hjf & _)]; [congruence|].
      exists (batch fl), bt'. split; [|done].
      apply list_lookup_insert_eq. by eapply lookup_lt_Some.
Qed.

Lemma batches_sound_step w e : batches_sound w → batches_sound (step w e).
Proof.
  intros Hsound.
  destruct e as [fs|now|r pe now|r data|r| |i]; cbn [step].
  - by apply (batches_sound_same w).
  - destruct (decide (selectedFiles w = [])) as [Hnil|Hne].
    + by rewrite handleUpload_empty.
    + by apply batches_sound_started.
  - destruct (flights w !! r) as [fl|] eqn:Hr; [|done].
    destruct (settled fl) eqn:Hs; [done|].
    apply (batches_sound_same w); try done.
    + pose proof (flights_progress w r pe now) as Hf.
      cbn [step] in Hf. by rewrite Hr, Hs in Hf.
    + unfold onUploadProgress. by destruct (total pe) as [[|t|t]|].
    + unfold onUploadProgress. by destruct (total pe) as [[|t|t]|].
  - destruct (flights w !! r) as [fl|] eqn:Hr; [|done].
    destruct (settled fl) eqn:Hs; [done|].
    set (w1 := settle r (onFulfilled (fileWrapper fl) data w)).
    destruct (allFulfil_spec (batch fl) w1) as [Hf Hcase].
    change (batches w1) with (batches w) in Hcase.
    change (uploading w1) with (uploading w) in Hcase.
    destruct (batches w !! batch fl) as [bt|] eqn:Hbt.
    + destruct (joined bt) eqn:Hj.
      * destruct Hcase as (Hb & Hu & _).
        apply (batches_sound_settled w _ r fl bt Hr Hs Hf); [|done].
        left. rewrite Hb, Hu. split; [done|]. split; [right; eauto|done].
      * case_decide as Hlast; destruct Hcase as (Hb & Hu & _).
        -- eapply (batches_sound_settled w _ r fl _ Hr Hs Hf); [|done].
           right. exists bt. split; [done|]. split; [done|].
           split; [exact Hb|]. left. done.
        -- eapply (batches_sound_settled w _ r fl _ Hr Hs Hf); [|done].
           right. exists bt. split; [done|]. split; [done|].
           split; [exact Hb|]. right. done.
    + destruct Hcase as (Hb & Hu & _).
      apply (batches_sound_settled w _ r fl
               {| awaited := 0; fulfilled := 0; joined := true |} Hr Hs Hf);
        [|done].
      left. rewrite Hb, Hu. split; [done|]. split; [by left|done].
  - destruct (flights w !! r) as [fl|] eqn:Hr; [|done].
    destruct (settled fl) eqn:Hs; [done|].
    set (w1 := settle r (onRejected (fileWrapper fl) w)).
    destruct (allReject_spec (batch fl) w1) as [Hf Hcase].
    change (batches w1) with (batches w) in Hcase.
    change (uploading w1) with (uploading w) in Hcase.
    destruct (batches w !! batch fl) as [bt|] eqn:Hbt.
    + destruct (joined bt) eqn:Hj; destruct Hcase as (Hb & Hu & _).
      * apply (batches_sound_settled w _ r fl bt Hr Hs Hf); [|done].
        left. rewrite Hb, Hu. split; [done|]. split; [right; eauto|done].
      * eapply (batches_sound_settled w _ r fl _ Hr Hs Hf); [|done].
        right. exists bt. split; [done|]. split; [done|].
        split; [exact Hb|]. left. done.
    + destruct Hcase as (Hb & Hu & _).
      apply (batches_sound_settled w _ r fl
               {| awaited := 0; fulfilled := 0; joined := true |} Hr Hs Hf);
        [|done].
      left. rewrite Hb, Hu. split; [done|]. split; [by left|done].
  - apply (batches_sound_same w); done.
  - unfold removeFile. destruct (uploading w); [done|].
    by apply (batches_sound_same w).
Qed.

Lemma batches_sound_run trace w :
  batches_sound w → batches_sound (run w trace).
Proof.
  revert w. induction trace as [|e trace IH]; intros w Hsound; [done|].
  rewrite run_cons. by apply IH, batches_sound_step.
Qed.

Lemma batches_sound_initial : batches_sound initial.
Proof.
  split; [|split]; [|constructor|done].
  intros b bt Hbt. cbn in Hbt. by destruct b.
Qed.

Lemma sound_in_flight w :
  batches_sound w →
  (∀ b bt, batches w !! b = Some bt → joined bt = false →
     (0 < length (outstanding b w))%nat ∧
     (fulfilled bt + length (outstanding b w) = awaited bt)%nat) ∧
  (uploading w = true →
   ∃ r fl, flights w !! r = Some fl ∧ settled fl = false).
Proof.
  intros (Hcount & _ & Hflag).
  split.
  - intros b bt Hbt Hj. destruct (Hcount b bt Hbt Hj). split; lia.
  - intros Hu. destruct (Hflag Hu) as (b & bt & Hbt & Hj).
    destruct (Hcount b bt Hbt Hj) as [Hsum Hless].
    destruct (outstanding b w) as [|fl rest] eqn:Hout; [cbn in Hsum; lia|].
    assert (fl ∈ outstanding b w) as Hin by (rewrite Hout; left).
    unfold outstanding in Hin.
    apply list_elem_of_filter in Hin as [[_ Hs] Hin].
    apply list_elem_of_lookup in Hin as [r Hr]. eauto.
Qed.

(** In every state the widget reaches, an awaited [Promise.all] has
    at least one of its requests in flight, as many as it still misses
    results; and while [uploading] is set some request is in flight. *)
Theorem uploading_means_in_flight trace :
  let w := run initial trace in
  (∀ b bt, batches w !! b = Some bt → joined bt = false →
     (0 < length (outstanding b w))%nat ∧
     (fulfilled bt + length (outstanding b w) = awaited bt)%nat) ∧
  (uploading w = true →
   ∃ r fl, flights w !! r = Some fl ∧ settled fl = false).
Proof.
  apply sound_in_flight, batches_sound_run, batches_sound_initial.
Qed.

(** ** One report per batch *)

Lemma length_filter_exclusive {A} (P Q : A → Prop)
    `{!∀ x, Decision (P x)} `{!∀ x, Decision (Q x)} (l : list A) :
  (∀ x, P x → Q x → False) →
  (length (filter P l) + length (filter Q l) ≤ length l)%nat.
Proof.
  intros Hex. induction l as [|x l IH]; [done|].
  rewrite !filter_cons.
  destruct (decide (P x)), (decide (Q x)); cbn [length]; try lia.
  exfalso. eauto.
Qed.

Lemma reports_sound_same w w' :
  batches w' = batches w → notices w' = notices w →
  reports_sound w → reports_sound w'.
Proof.
  intros Hb Hn. unfold reports_sound, rejected_joins, resolved_joins.
  by rewrite Hb, Hn.
Qed.

(** A batch that is awaited is replaced by [bt'], and [said] is
    reported. *)
Lemma reports_sound_settled w w' b bt bt' said :
  batches w !! b = Some bt → joined bt = false →
  batches w' = <[b := bt']> (batches w) →
  notices w' = notices w ++ said →
  (joined bt' = false ∧ said = []) ∨
  (joined bt' = true ∧ (fulfilled bt' < awaited bt')%nat ∧
   said = [ConsoleError "Upload failed:";
           Alert "One or more uploads failed."]) ∨
  (joined bt' = true ∧ fulfilled bt' = awaited bt' ∧
   said = [ConsoleLog "All uploads complete"]) →
  reports_sound w → reports_sound w'.
Proof.
  intros Hbt Hj Hb Hn Hkind [Halerts Hdone].
  unfold reports_sound, rejected_joins, resolved_joins in *.
  rewrite Hb, Hn, !filter_app, !length_app.
  pose proof (length_filter_insert
                (λ bt, joined bt = true ∧ (fulfilled bt < awaited bt)%nat)
                (batches w) b bt bt' Hbt) as Hrej.
  pose proof (length_filter_insert
                (λ bt, joined bt = true ∧ fulfilled bt = awaited bt)
                (batches w) b bt bt' Hbt) as Hres.
  rewrite decide_False in Hrej by (intros [? _]; congruence).
  rewrite decide_False in Hres by (intros [? _]; congruence).
  destruct Hkind as [(Hj' & ->)|[(Hj' & Hlt & ->)|(Hj' & Heq & ->)]].
  - rewrite decide_False in Hrej by (intros [? _]; congruence).
    rewrite decide_False in Hres by (intros [? _]; congruence).
    cbn. split; lia.
  - rewrite decide_True in Hrej by done.
    rewrite decide_False in Hres by (intros [_ ?]; lia).
    change (filter is_alert [ConsoleError "Upload failed:";
                             Alert "One or more uploads failed."])
      with [Alert "One or more uploads failed."].
    change (filter is_completion [ConsoleError "Upload failed:";
                                  Alert "One or more uploads failed."])
      with (@nil Notice).
    cbn [length]. split; lia.
  - rewrite decide_False in Hrej by (intros [_ ?]; lia).
    rewrite decide_True in Hres by done.
    change (filter is_alert [ConsoleLog "All uploads complete"])
      with (@nil Notice).
    change (filter is_completion [ConsoleLog "All uploads complete"])
      with [ConsoleLog "All uploads complete"].
    cbn [length]. split; lia.
Qed.

Lemma reports_sound_step w e :
  batches_sound w → reports_sound w → reports_sound (step w e).
Proof.
  intros (Hcount & _ & _) Hreports.
  destruct e as [fs|now|r pe now|r data|r| |i]; cbn [step].
  - by apply (reports_sound_same w).
  - destruct (decide (selectedFiles w = [])) as [Hnil|Hne].
    + by rewrite handleUpload_empty.
    + destruct (handleUpload_started now w Hne) as (_ & Hb & _ & Hn).
      destruct Hreports as [Halerts Hdone].
      unfold reports_sound, rejected_joins, resolved_joins in *.
      rewrite Hb, Hn, !filter_app, !length_app.
      rewrite !filter_cons_False by (cbn; intros [? _]; congruence).
      cbn. lia.
  - destruct (flights w !! r) as [fl|] eqn:Hr; [|done].
    destruct (settled fl) eqn:Hs; [done|].
    apply (reports_sound_same w); try done;
      unfold onUploadProgress; by destruct (total pe) as [[|t|t]|].
  - destruct (flights w !! r) as [fl|] eqn:Hr; [|done].
    destruct (settled fl) eqn:Hs; [done|].
    set (w1 := settle r (onFulfilled (fileWrapper fl) data w)).
    destruct (allFulfil_spec (batch fl) w1) as [_ Hcase].
    change (batches w1) with (batches w) in Hcase.
    change (notices w1) with (notices w) in Hcase.
    destruct (batches w !! batch fl) as [bt|] eqn:Hbt.
    + destruct (joined bt) eqn:Hj.
      * destruct Hcase as (Hb & _ & Hn). by apply (reports_sound_same w).
      * destruct (Hcount _ _ Hbt Hj) as [_ Hless].
        case_decide as Hlast; destruct Hcase as (Hb & _ & Hn).
        -- eapply (reports_sound_settled w _ _ bt _ _ Hbt Hj Hb Hn);
             [|done].
           right. right. done.
        -- eapply (reports_sound_settled w _ _ bt _ [] Hbt Hj Hb);
             [by rewrite app_nil_r| |done].
           left. done.
    + destruct Hcase as (Hb & _ & Hn). by apply (reports_sound_same w).
  - destruct (flights w !! r) as [fl|] eqn:Hr; [|done].
    destruct (settled fl) eqn:Hs; [done|].
    set (w1 := settle r (onRejected (fileWrapper fl) w)).
    destruct (allReject_spec (batch fl) w1) as [_ Hcase].
    change (batches w1) with (batches w) in Hcase.
    change (notices w1) with (notices w) in Hcase.
    destruct (batches w !! batch fl) as [bt|] eqn:Hbt.
    + destruct (joined bt) eqn:Hj; destruct Hcase as (Hb & _ & Hn).
      * by apply (reports_sound_same w).
      * destruct (Hcount _ _ Hbt Hj) as [_ Hless].
        eapply (reports_sound_settled w _ _ bt _ _ Hbt Hj Hb Hn); [|done].
        right. left. done.
    + destruct Hcase as (Hb & _ & Hn). by apply (reports_sound_same w).
  - by apply (reports_sound_same w).
  - unfold removeFile. destruct (uploading w); [done|].
    by apply (reports_sound_same w).
Qed.

Lemma reports_sound_run trace w :
  batches_sound w → reports_sound w → reports_sound (run w trace).
Proof.
  revert w. induction trace as [|e trace IH]; intros w Hb Hr; [done|].
  rewrite run_cons. apply IH; [by apply batches_sound_step|].
  by apply reports_sound_step.
Qed.

(** In every state the widget reaches, the alerts raised are as many
    as the [Promise.all]s that rejected and the completions logged as
    many as those that resolved: a batch is reported once, however many
    of its uploads fail, and never as both. *)
Theorem each_batch_reports_once trace :
  let w := run initial trace in
  length (filter is_alert (notices w)) = length (rejected_joins w) ∧
  length (filter is_completion (notices w)) = length (resolved_joins w) ∧
  (length (filter is_alert (notices w)) +
   length (filter is_completion (notices w)) ≤ length (batches w))%nat.
Proof.
  intros w.
  destruct (reports_sound_run trace initial batches_sound_initial)
    as [Halerts Hdone]; [done|].
  fold w in Halerts, Hdone. split; [done|]. split; [done|].
  rewrite Halerts, Hdone. apply length_filter_exclusive.
  intros bt [_ Hlt] [_ Heq]. lia.
Qed.

(** ** Joining a batch *)

(** The first failure of a batch ends the wait of [handleUpload]: it
    logs the error, raises the alert and clears [uploading], and it
    does so while the other requests of the batch stay in flight, none
    of them touched. *)
Theorem first_failure_ends_batch w r fl bt :
  flights w !! r = Some fl → settled fl = false →
  batches w !! batch fl = Some bt → joined bt = false →
  let w' := step w (EvReject r) in
  uploading w' = false ∧
  notices w' = notices w ++ [ConsoleError "Upload failed:";
                             Alert "One or more uploads failed."] ∧
  joined <$> batches w' !! batch fl = Some true ∧
  (∀ r', r' ≠ r → flights w' !! r' = flights w !! r') ∧
  (length (outstanding (batch fl) w') + 1
   = length (outstanding (batch fl) w))%nat.
Proof.
  intros Hr Hs Hbt Hj w'. unfold w'. cbn [step]. rewrite Hr, Hs.
  set (w1 := settle r (onRejected (fileWrapper fl) w)).
  destruct (allReject_spec (batch fl) w1) as [Hf Hcase].
  change (batches w1) with (batches w) in Hcase.
  change (notices w1) with (notices w) in Hcase.
  rewrite Hbt, Hj in Hcase. destruct Hcase as (Hb & Hu & Hn).
  split; [done|]. split; [done|]. split; [|split].
  - rewrite Hb, list_lookup_insert_eq by (by eapply lookup_lt_Some). done.
  - intros r' Hne. rewrite Hf. unfold w1. rewrite settle_flights.
    by apply list_lookup_alter_ne.
  - pose proof (outstanding_settled (batch fl) (flights w)
                  (flights (allReject (batch fl) w1)) r fl Hr Hs Hf) as Hout.
    rewrite decide_True in Hout by done. exact Hout.
Qed.

(** A success of a batch that is still awaited ends the wait exactly
    when it is the last result missing: then the completion is logged
    and [uploading] cleared, with no alert; before that neither the
    notices nor [uploading] change. *)
Theorem last_success_completes_batch w r fl bt data :
  flights w !! r = Some fl → settled fl = false →
  batches w !! batch fl = Some bt → joined bt = false →
  let w' := step w (EvFulfil r data) in
  if decide (S (fulfilled bt) = awaited bt)
  then uploading w' = false ∧
       notices w' = notices w ++ [ConsoleLog "All uploads complete"] ∧
       joined <$> batches w' !! batch fl = Some true
  else uploading w' = uploading w ∧
       notices w' = notices w ∧
       joined <$> batches w' !! batch fl = Some false.
Proof.
  intros Hr Hs Hbt Hj w'. unfold w'. cbn [step]. rewrite Hr, Hs.
  set (w1 := settle r (onFulfilled (fileWrapper fl) data w)).
  destruct (allFulfil_spec (batch fl) w1) as [Hf Hcase].
  change (batches w1) with (batches w) in Hcase.
  change (notices w1) with (notices w) in Hcase.
  change (uploading w1) with (uploading w) in Hcase.
  rewrite Hbt, Hj in Hcase.
  case_decide as Hlast; destruct Hcase as (Hb & Hu & Hn);
    (split; [done|]); (split; [done|]);
    rewrite Hb, list_lookup_insert_eq by (by eapply lookup_lt_Some); done.
Qed.

(** ** What the rendered component permits *)

Lemma feasible_cons w e trace :
  feasible w (e :: trace) = true →
  offered w e = true ∧ feasible (step w e) trace = true.
Proof. cbn [feasible]. by intros [??]%andb_prop. Qed.

Lemma one_join_step w e :
  offered w e = true →
  length (pending_joins w) = (if uploading w then 1 else 0)%nat →
  length (pending_joins (step w e))
  = (if uploading (step w e) then 1 else 0)%nat.
Proof.
  intros Hoffered Hone. unfold pending_joins in *.
  destruct e as [fs|now|r pe now|r data|r| |i]; cbn [step offered] in *.
  - done.
  - apply andb_prop in Hoffered as [[Hidle Hsome]%andb_prop _].
    apply negb_true_iff in Hidle. apply Nat.ltb_lt in Hsome.
    assert (selectedFiles w ≠ []) as Hne.
    { intros Hnil. rewrite Hnil in Hsome. cbn in Hsome. lia. }
    destruct (handleUpload_started now w Hne) as (_ & Hb & Hu & _).
    rewrite Hb, Hu, filter_app, length_app, Hone, Hidle.
    by rewrite filter_cons_True.
  - destruct (flights w !! r) as [fl|] eqn:Hr; [|done].
    destruct (settled fl) eqn:Hs; [done|]. unfold onUploadProgress.
    by destruct (total pe) as [[|t|t]|].
  - destruct (flights w !! r) as [fl|] eqn:Hr; [|done].
    destruct (settled fl) eqn:Hs; [done|].
    set (w1 := settle r (onFulfilled (fileWrapper fl) data w)).
    destruct (allFulfil_spec (batch fl) w1) as [_ Hcase].
    change (batches w1) with (batches w) in Hcase.
    change (uploading w1) with (uploading w) in Hcase.
    destruct (batches w !! batch fl) as [bt|] eqn:Hbt.
    + destruct (joined bt) eqn:Hj.
      * destruct Hcase as (-> & -> & _). done.
      * case_decide as Hlast; destruct Hcase as (-> & -> & _).
        -- pose proof (length_filter_insert (λ bt, joined bt = false)
                         (batches w) (batch fl) bt
                         {| awaited := awaited bt;
                            fulfilled := S (fulfilled bt);
                            joined := true |} Hbt) as Hcount.
           rewrite decide_True in Hcount by done.
           rewrite decide_False in Hcount by done.
           destruct (uploading w); lia.
        -- pose proof (length_filter_insert (λ bt, joined bt = false)
                         (batches w) (batch fl) bt
                         {| awaited := awaited bt;
                            fulfilled := S (fulfilled bt);
                            joined := false |} Hbt) as Hcount.
           rewrite decide_True in Hcount by done.
           rewrite decide_True in Hcount by done. lia.
    + destruct Hcase as (-> & -> & _). done.
  - destruct (flights w !! r) as [fl|] eqn:Hr; [|done].
    destruct (settled fl) eqn:Hs; [done|].
    set (w1 := settle r (onRejected (fileWrapper fl) w)).
    destruct (allReject_spec (batch fl) w1) as [_ Hcase].
    change (batches w1) with (batches w) in Hcase.
    change (uploading w1) with (uploading w) in Hcase.
    destruct (batches w !! batch fl) as [bt|] eqn:Hbt.
    + destruct (joined bt) eqn:Hj; destruct Hcase as (-> & -> & _); [done|].
      pose proof (length_filter_insert (λ bt, joined bt = false)
                    (batches w) (batch fl) bt
                    {| awaited := awaited bt; fulfilled := fulfilled bt;
                       joined := true |} Hbt) as Hcount.
      rewrite decide_True in Hcount by done.
      rewrite decide_False in Hcount by done.
      destruct (uploading w); lia.
    + destruct Hcase as (-> & -> & _). done.
  - apply andb_prop in Hoffered as [Hidle%negb_true_iff _].
    rewrite Hidle in Hone. exact Hone.
  - unfold removeFile. destruct (uploading w) eqn:Hu; cbn; by rewrite Hu.
Qed.

(** In every execution the rendered component permits, at most one
    [Promise.all] is awaited at a time, and [uploading] is set exactly
    while one is. *)
Theorem one_join_at_a_time trace :
  feasible initial trace = true →
  length (pending_joins (run initial trace))
  = (if uploading (run initial trace) then 1 else 0)%nat.
Proof.
  assert (∀ w, feasible w trace = true →
               length (pending_joins w) = (if uploading w then 1 else 0)%nat →
               length (pending_joins (run w trace))
               = (if uploading (run w trace) then 1 else 0)%nat) as Hgen.
  { induction trace as [|e trace IH]; intros w Hfeasible Hone; [done|].
    apply feasible_cons in Hfeasible as [Hoffered Hrest].
    rewrite run_cons. apply IH; [done|]. by apply one_join_step. }
  intros Hfeasible. by apply Hgen.
Qed.

End WidgetBatches.

(** * The upload widget: the list and its resources *)

Section WidgetList.
Import Widget WidgetSpec LifecycleSpec.

Context `{Browser}.

Implicit Types (w : State) (e : Event) (item fw : UploadableFile).

(** ** Identifiers *)

Lemma ids_step w e :
  stays e →
  map id (selectedFiles (step w e)) = map id (selectedFiles w).
Proof.
  intros Hstays.
  assert (∀ l, map id l = map (λ p, p.1.1) (map identity l)) as Hids.
  { intros l. by rewrite List.map_map. }
  by rewrite !Hids, identity_step.
Qed.

Lemma draws_uploadSingleFile now b items w :
  draws (foldl (λ acc fw, uploadSingleFile now b fw acc) w items) = draws w.
Proof.
  revert w. induction items as [|fw items IH]; intros w; [done|].
  cbn [foldl]. by rewrite IH.
Qed.

Lemma draws_step w e : stays e → draws (step w e) = draws w.
Proof.
  intros Hstays.
  destruct e as [fs|now|r pe now|r data|r| |i]; cbn [step]; try done.
  - unfold handleUpload. case_match; [done|]. cbn.
    by rewrite draws_uploadSingleFile.
  - destruct (flights w !! r) as [fl|]; [|done].
    destruct (settled fl); [done|]. unfold onUploadProgress.
    by destruct (total pe) as [[|t|t]|].
  - destruct (flights w !! r) as [fl|]; [|done].
    destruct (settled fl); [done|].
    unfold allFulfil. by repeat case_match.
  - destruct (flights w !! r) as [fl|]; [|done].
    destruct (settled fl); [done|].
    unfold allReject. by repeat case_match.
Qed.

Lemma lookup_new_ids w (acceptedFiles : list File) k i :
  map id (imap (newFile w) acceptedFiles) !! k = Some i →
  i = random_id (draws w + k) ∧ (k < length acceptedFiles)%nat.
Proof.
  change (map ?f ?l) with (f <$> l).
  rewrite list_lookup_fmap, list_lookup_imap.
  destruct (acceptedFiles !! k) as [f|] eqn:Hk; [|done].
  intros [= <-]. split; [done|]. by eapply lookup_lt_Some.
Qed.

Lemma ids_sound_step w e :
  (∀ m n, random_id m = random_id n → m = n) →
  ids_sound w → ids_sound (step w e).
Proof.
  intros Hinj [Hnodup Hknown]. unfold ids_sound.
  destruct e as [fs|now|r pe now|r data|r| |i].
  - cbn [step]. rewrite files_onDrop, List.map_app.
    change (draws (onDrop fs w)) with (draws w + length fs)%nat.
    split.
    + apply NoDup_app. split; [done|]. split.
      * intros x Hold Hnew.
        pose proof (proj1 (Forall_forall _ _) Hknown x Hold)
          as (n & Hn & Hx). subst x.
        apply list_elem_of_lookup in Hnew as [k Hk].
        apply lookup_new_ids in Hk as [Hk _]. apply Hinj in Hk. lia.
      * apply NoDup_alt. intros k1 k2 x Hk1 Hk2.
        apply lookup_new_ids in Hk1 as [-> _].
        apply lookup_new_ids in Hk2 as [Hk2 _]. apply Hinj in Hk2. lia.
    + apply Forall_app. split.
      * eapply Forall_impl; [exact Hknown|].
        intros x (n & Hn & ->). exists n. split; [lia|done].
      * apply Forall_lookup. intros k x Hk.
        apply lookup_new_ids in Hk as [-> Hk].
        eexists. split; [|done]. lia.
  - by rewrite ids_step, draws_step.
  - by rewrite ids_step, draws_step.
  - by rewrite ids_step, draws_step.
  - by rewrite ids_step, draws_step.
  - cbn. split; constructor.
  - cbn [step]. unfold removeFile. destruct (uploading w); [done|].
    rewrite files_setSelectedFiles.
    change (draws (setSelectedFiles ?f w)) with (draws w).
    assert (sublist (map id (filter (λ f, id f ≠ i) (selectedFiles w)))
              (map id (selectedFiles w))) as Hsub.
    { change (map ?f ?l) with (f <$> l).
      apply fmap_sublist, sublist_filter. }
    split; [by eapply sublist_NoDup|].
    apply Forall_forall. intros x Hx.
    apply (proj1 (Forall_forall _ _) Hknown x).
    by eapply elem_of_sublist.
Qed.

Lemma ids_sound_run trace :
  (∀ m n, random_id m = random_id n → m = n) →
  ids_sound (run initial trace).
Proof.
  intros Hinj. induction trace as [|e trace IH] using rev_ind.
  - split; constructor.
  - rewrite run_snoc. by apply ids_sound_step.
Qed.

(** If [Math.random] never yields the same token twice, the
    identifiers of the list are distinct in every state the widget
    reaches. *)
Theorem ids_stay_unique trace :
  (∀ m n, random_id m = random_id n → m = n) →
  NoDup (map id (selectedFiles (run initial trace))).
Proof. intros Hinj. by destruct (ids_sound_run trace Hinj). Qed.

(** ** Preview URLs *)

Lemma revoked_uploadSingleFile now b items w :
  revoked (foldl (λ acc fw, uploadSingleFile now b fw acc) w items)
  = revoked w.
Proof.
  revert w. induction items as [|fw items IH]; intros w; [done|].
  cbn [foldl]. by rewrite IH.
Qed.

(** A step leaves the list as it is, or replaces it and runs the
    cleanup of the effect on the list it replaces. *)
Lemma step_replaces w e :
  selectedFiles (step w e) = selectedFiles w ∨
  revoked (step w e) = revoked w ++ map url (selectedFiles w).
Proof.
  destruct e as [fs|now|r pe now|r data|r| |i]; cbn [step].
  - by right.
  - left. apply files_handleUpload.
  - destruct (flights w !! r) as [fl|]; [|by left].
    destruct (settled fl); [by left|]. unfold onUploadProgress.
    destruct (total pe) as [[|t|t]|]; (by left) || by right.
  - destruct (flights w !! r) as [fl|]; [|by left].
    destruct (settled fl); [by left|]. right.
    unfold allFulfil. by repeat case_match.
  - destruct (flights w !! r) as [fl|]; [|by left].
    destruct (settled fl); [by left|]. right.
    unfold allReject. by repeat case_match.
  - by right.
  - unfold removeFile. destruct (uploading w); [by left|by right].
Qed.

(** Whenever a step changes the list, the preview URL of every item
    that was listed is revoked, and so is, after a step of the upload
    lifecycle, the preview URL of every item that is listed. *)
Theorem list_change_revokes_previews w e :
  selectedFiles (step w e) ≠ selectedFiles w →
  Forall (λ item, url item ∈ revoked (step w e)) (selectedFiles w) ∧
  (stays e →
   Forall (λ item, url item ∈ revoked (step w e)) (selectedFiles (step w e))).
Proof.
  intros Hchanged.
  destruct (step_replaces w e) as [Hsame|Hrevoked]; [done|].
  assert (∀ u, u ∈ map url (selectedFiles w) → u ∈ revoked (step w e))
    as Hin.
  { intros u Hu. rewrite Hrevoked. apply elem_of_app. by right. }
  split.
  - apply Forall_forall. intros item Hitem. apply Hin.
    change (map ?f ?l) with (f <$> l). by apply list_elem_of_fmap_2.
  - intros Hstays. apply Forall_forall. intros item Hitem. apply Hin.
    assert (map url (selectedFiles (step w e)) = map url (selectedFiles w))
      as <-.
    { assert (∀ l, map url l = map (λ p, p.2) (map identity l)) as Hurls.
      { intros l. by rewrite List.map_map. }
      by rewrite !Hurls, identity_step. }
    change (map ?f ?l) with (f <$> l). by apply list_elem_of_fmap_2.
Qed.

(** ** The remove button *)

(** A remove button that is rendered does remove: after a press the
    list is shorter, no item carries the identifier of the button, and
    the items with another identifier are all still there. *)
Theorem rendered_remove_button_removes w i :
  offered w (EvRemove i) = true →
  let w' := step w (EvRemove i) in
  (length (selectedFiles w') < length (selectedFiles w))%nat ∧
  Forall (λ item, id item ≠ i) (selectedFiles w') ∧
  (∀ item, item ∈ selectedFiles w → id item ≠ i → item ∈ selectedFiles w').
Proof.
  intros Hoffered w'. cbn [offered] in Hoffered.
  apply andb_prop in Hoffered as [Hidle%negb_true_iff Hshown].
  apply List.existsb_exists in Hshown as (shown & Hin & Hid).
  apply String.eqb_eq in Hid. apply list_elem_of_In in Hin.
  unfold w'. cbn [step]. unfold removeFile. rewrite Hidle.
  rewrite files_setSelectedFiles. split; [|split].
  - apply (length_filter_lt _ _ shown); [done|]. intros Hne. by apply Hne.
  - apply Forall_forall. by intros item [Hne _]%list_elem_of_filter.
  - intros item Hitem Hne. by apply list_elem_of_filter.
Qed.

End WidgetList.

(** * The upload widget: a batch from drop to completion *)

Section WidgetEndToEnd.
Import Widget WidgetSpec LifecycleSpec.

Context `{Browser}.

Implicit Types (w : State) (e : Event) (item fw : UploadableFile).

Lemma wrappers_settle r w :
  map (λ fl, id (fileWrapper fl)) (flights (settle r w))
  = map (λ fl, id (fileWrapper fl)) (flights w).
Proof.
  rewrite settle_flights. change (map ?f ?l) with (f <$> l).
  rewrite (list_fmap_alter (λ fl, id (fileWrapper fl)) _ (λ q, q)).
  - by apply list_alter_id.
  - by apply Forall_true.
Qed.

Lemma aligned_step w e : succeeding e → aligned w → aligned (step w e).
Proof.
  intros Hok Haligned. unfold aligned.
  rewrite ids_step by (by destruct e). rewrite Haligned.
  destruct e as [fs|now|r pe now|r data|r| |i]; try done; cbn [step].
  - pose proof (flights_progress w r pe now) as Hf. cbn [step] in Hf.
    by rewrite Hf.
  - destruct (flights w !! r) as [fl|]; [|done].
    destruct (settled fl); [done|].
    by rewrite flights_allFulfil, wrappers_settle.
Qed.

(** Two aligned positions with the same identifier are one. *)
Lemma aligned_same w k r flr item :
  aligned w → NoDup (map id (selectedFiles w)) →
  flights w !! r = Some flr →
  selectedFiles w !! k = Some item →
  id item = id (fileWrapper flr) →
  k = r.
Proof.
  intros Haligned Hnodup Hr Hk Hid.
  apply (NoDup_lookup _ _ _ (id item) Hnodup).
  - change (map ?f ?l) with (f <$> l). by rewrite list_lookup_fmap, Hk.
  - rewrite Haligned. change (map ?f ?l) with (f <$> l).
    rewrite list_lookup_fmap, Hr. cbn. by rewrite Hid.
Qed.

Lemma aligned_at w r flr :
  aligned w → flights w !! r = Some flr →
  ∃ item, selectedFiles w !! r = Some item ∧ id item = id (fileWrapper flr).
Proof.
  intros Haligned Hr.
  assert (map id (selectedFiles w) !! r = Some (id (fileWrapper flr)))
    as Hid.
  { rewrite Haligned. change (map ?f ?l) with (f <$> l).
    by rewrite list_lookup_fmap, Hr. }
  change (map ?f ?l) with (f <$> l) in Hid.
  rewrite list_lookup_fmap in Hid.
  destruct (selectedFiles w !! r) as [item|]; [|done].
  injection Hid as Hid. eauto.
Qed.

Lemma settled_show_success_step w trace e :
  succeeding e → aligned w → NoDup (map id (selectedFiles w)) →
  settled_show_success w trace →
  settled_show_success (step w e) (trace ++ [e]).
Proof.
  intros Hok Haligned Hnodup Hshow.
  assert (settled_show_success w (trace ++ [e])) as Hkeep.
  { intros k fl item Hk Hs Hitem.
    destruct (Hshow k fl item Hk Hs Hitem) as (? & ? & data & Hin & ?).
    repeat split; try done. exists data. split; [|done].
    apply elem_of_app. by left. }
  destruct e as [fs|now|r pe now|r data|r| |i]; try done.
  - destruct (flights w !! r) as [flr|] eqn:Hr;
      [|by cbn [step]; rewrite Hr].
    destruct (settled flr) eqn:Hsr; [by cbn [step]; rewrite Hr, Hsr|].
    destruct (total pe) as [t|] eqn:Htotal;
      [|by cbn [step]; rewrite Hr, Hsr; unfold onUploadProgress;
           rewrite Htotal].
    destruct (decide (t = 0)) as [->|Hne];
      [by cbn [step]; rewrite Hr, Hsr; unfold onUploadProgress;
          rewrite Htotal|].
    intros k fl item' Hk Hs Hitem'.
    rewrite flights_progress in Hk.
    rewrite (files_progress _ _ _ _ _ _ Hr Hsr Htotal Hne) in Hitem'.
    destruct (selectedFiles w !! k) as [item|] eqn:Hitem.
    2:{ change (map ?f ?l) with (f <$> l) in Hitem'.
        by rewrite list_lookup_fmap, Hitem in Hitem'. }
    rewrite (lookup_update _ _ _ _ _ Hitem) in Hitem'.
    destruct (String.eqb (id item) (id (fileWrapper flr))) eqn:Heq.
    + apply String.eqb_eq in Heq.
      assert (k = r) as -> by by eapply aligned_same. congruence.
    + injection Hitem' as <-. by eapply Hkeep.
  - destruct (flights w !! r) as [flr|] eqn:Hr;
      [|by cbn [step]; rewrite Hr].
    destruct (settled flr) eqn:Hsr; [by cbn [step]; rewrite Hr, Hsr|].
    intros k fl item' Hk Hs Hitem'.
    rewrite (files_fulfil _ _ _ _ Hr Hsr) in Hitem'.
    cbn [step] in Hk. rewrite Hr, Hsr, flights_allFulfil, settle_flights in Hk.
    destruct (selectedFiles w !! k) as [item|] eqn:Hitem.
    2:{ change (map ?f ?l) with (f <$> l) in Hitem'.
        by rewrite list_lookup_fmap, Hitem in Hitem'. }
    rewrite (lookup_update _ _ _ _ _ Hitem) in Hitem'.
    destruct (String.eqb (id item) (id (fileWrapper flr))) eqn:Heq.
    + apply String.eqb_eq in Heq.
      assert (k = r) as -> by by eapply aligned_same.
      injection Hitem' as <-. repeat split; try done.
      exists data. split; [|done]. apply elem_of_app. right. by left.
    + injection Hitem' as <-.
      destruct (decide (k = r)) as [->|Hkr].
      * destruct (aligned_at w r flr Haligned Hr) as (item0 & Hitem0 & Hid0).
        rewrite Hitem in Hitem0. injection Hitem0 as <-.
        apply String.eqb_neq in Heq. done.
      * rewrite list_lookup_alter_ne in Hk by done. by eapply Hkeep.
Qed.

Lemma single_batch_step w e :
  succeeding e → single_batch w → single_batch (step w e).
Proof.
  intros Hok (bt & Hb & Hn). unfold single_batch.
  destruct e as [fs|now|r pe now|r data|r| |i]; try done; cbn [step].
  - destruct (flights w !! r) as [fl|]; [|by eauto].
    destruct (settled fl); [by eauto|]. unfold onUploadProgress.
    destruct (total pe) as [[|t|t]|]; by eauto.
  - destruct (flights w !! r) as [fl|]; [|by eauto].
    destruct (settled fl); [by eauto|].
    set (w1 := settle r (onFulfilled (fileWrapper fl) data w)).
    destruct (allFulfil_spec (batch fl) w1) as [_ Hcase].
    change (batches w1) with (batches w) in Hcase.
    change (notices w1) with (notices w) in Hcase.
    rewrite Hb in Hcase.
    destruct (batch fl) as [|b]; cbn in Hcase.
    + destruct (joined bt) eqn:Hj.
      * destruct Hcase as (-> & _ & ->). exists bt. by rewrite Hj.
      * case_decide as Hlast; destruct Hcase as (-> & _ & ->);
          eexists; (split; [reflexivity|]); cbn; by rewrite Hn.
    + destruct b; destruct Hcase as (-> & _ & ->); by eauto.
Qed.

(** However the progress events and the responses of a batch
    interleave: with tokens that never repeat, once every request of a
    batch of dropped files has succeeded, every item is "success" at
    100 with the remote URL of one of the responses, [uploading] is
    cleared, and the completion is the one notice; no alert was
    raised. *)
Theorem batch_of_successes (acceptedFiles : list File) (now : Z)
    (trace : list Event) :
  (∀ m n, random_id m = random_id n → m = n) →
  acceptedFiles ≠ [] →
  Forall succeeding trace →
  let w := run initial (EvDrop acceptedFiles :: EvUpload now :: trace) in
  Forall (λ fl, settled fl = true) (flights w) →
  map file (selectedFiles w) = acceptedFiles ∧
  Forall (λ item,
            status item = Success ∧ progress item = 100 ∧
            ∃ r data, EvFulfil r data ∈ trace ∧
                      remoteUrl item = assoc "secure_url" data)
    (selectedFiles w) ∧
  uploading w = false ∧
  notices w = [ConsoleLog "All uploads complete"].
Proof.
  intros Hinj Hne Hok w Hall.
  set (w0 := run initial [EvDrop acceptedFiles; EvUpload now]).
  assert (w = run w0 trace) as Hw by reflexivity.
  assert (selectedFiles w0 ≠ []) as Hne0.
  { unfold w0. cbn. rewrite files_handleUpload. cbn.
    by destruct acceptedFiles. }
  (* the state the uploads start from *)
  assert (aligned w0 ∧ settled_show_success w0 [] ∧ single_batch w0)
    as (Ha0 & Hs0 & Hb0).
  { unfold w0. cbn [run foldl step].
    set (wd := onDrop acceptedFiles initial) in *.
    assert (selectedFiles wd ≠ []) as Hned.
    { unfold wd. cbn. by destruct acceptedFiles. }
    destruct (handleUpload_started now wd Hned) as (Hf & Hb & _ & Hn).
    split; [|split].
    - unfold aligned. rewrite files_handleUpload, Hf.
      change (flights wd) with (@nil Flight).
      by rewrite app_nil_l, List.map_map.
    - intros k fl item Hk Hs. rewrite Hf in Hk.
      change (flights wd) with (@nil Flight) in Hk.
      rewrite app_nil_l in Hk. apply list_elem_of_lookup_2 in Hk.
      change (map ?f ?l) with (f <$> l) in Hk.
      apply list_elem_of_fmap in Hk as (fw & -> & _). done.
    - eexists. rewrite Hb, Hn. split; reflexivity. }
  (* what a run of successes keeps *)
  assert (aligned w ∧ settled_show_success w trace ∧ single_batch w ∧
          map identity (selectedFiles w) = map identity (selectedFiles w0))
    as (Ha & Hs & Hb & Hid).
  { rewrite Hw. clear Hall Hw w. revert Hok.
    induction trace as [|e trace IH] using rev_ind; intros Hok.
    - done.
    - apply Forall_app in Hok as [Hok He].
      apply List.Forall_inv in He.
      destruct (IH Hok) as (Ha & Hs & Hb & Hid). rewrite run_snoc.
      assert (NoDup (map id (selectedFiles (run w0 trace)))) as Hnodup.
      { apply (ids_sound_run
                 (EvDrop acceptedFiles :: EvUpload now :: trace) Hinj). }
      split; [by apply aligned_step|].
      split; [by apply settled_show_success_step|].
      split; [by apply single_batch_step|].
      rewrite identity_step by (by destruct e). done. }
  destruct (sound_in_flight w) as [Hcount Hflag].
  { apply batches_sound_run, batches_sound_initial. }
  assert (length (selectedFiles w) = length (flights w)) as Hlen.
  { rewrite <- (List.length_map id), Ha. apply List.length_map. }
  split; [|split; [|split]].
  - assert (∀ l, map file l = map (λ p, p.1.2) (map identity l)) as Hfiles.
    { intros l. by rewrite List.map_map. }
    rewrite Hfiles, Hid, <- Hfiles. unfold w0. cbn.
    rewrite files_handleUpload. cbn.
    destruct (onDrop_appends acceptedFiles initial) as (new & Hnew & <- & _).
    cbn in Hnew. by rewrite Hnew.
  - apply Forall_lookup. intros k item Hitem.
    destruct (flights w !! k) as [fl|] eqn:Hk.
    2:{ apply lookup_ge_None in Hk. apply lookup_lt_Some in Hitem. lia. }
    assert (settled fl = true) as Hsettled.
    { by eapply (proj1 (Forall_lookup _ _) Hall). }
    destruct (Hs k fl item Hk Hsettled Hitem) as (? & ? & data & ? & ?).
    eauto 10.
  - destruct (uploading w) eqn:Hu; [|done]. exfalso.
    destruct (Hflag eq_refl) as (r & fl & Hr & Hunsettled).
    assert (settled fl = true) by by eapply (proj1 (Forall_lookup _ _) Hall).
    congruence.
  - destruct Hb as (bt & Hb & Hn). rewrite Hn.
    destruct (joined bt) eqn:Hj; [done|]. exfalso.
    destruct (Hcount 0%nat bt) as [Hpos _]; [by rewrite Hb|done|].
    destruct (outstanding 0 w) as [|fl rest] eqn:Hout; [cbn in Hpos; lia|].
    assert (fl ∈ outstanding 0 w) as Hin by (rewrite Hout; left).
    unfold outstanding in Hin.
    apply list_elem_of_filter in Hin as [[_ Hunsettled] Hin].
    assert (settled fl = true) by by eapply (proj1 (Forall_forall _ _) Hall).
    congruence.
Qed.

(** After the first failure of a batch the upload button is rendered
    again, whether or not other requests of the batch are in flight:
    the item of the failed upload, if still listed, is an "error" item
    of a list that is not uploading. *)
Theorem upload_offered_after_failure w r fl bt k item now :
  flights w !! r = Some fl → settled fl = false →
  batches w !! batch fl = Some bt → joined bt = false →
  selectedFiles w !! k = Some item → id item = id (fileWrapper fl) →
  offered (step w (EvReject r)) (EvUpload now) = true.
Proof.
  intros Hr Hs Hbt Hj Hk Hid.
  assert (uploading (step w (EvReject r)) = false) as Hidle.
  { cbn [step]. rewrite Hr, Hs.
    set (w1 := settle r (onRejected (fileWrapper fl) w)).
    destruct (allReject_spec (batch fl) w1) as [_ Hcase].
    change (batches w1) with (batches w) in Hcase.
    rewrite Hbt, Hj in Hcase. by destruct Hcase as (_ & Hidle & _). }
  assert (selectedFiles (step w (EvReject r)) !! k = Some (failed item))
    as Hmarked.
  { rewrite (files_reject _ _ _ Hr Hs), (lookup_update _ _ _ _ _ Hk).
    by rewrite (proj2 (String.eqb_eq _ _) Hid). }
  cbn [offered]. rewrite Hidle. cbn [negb andb].
  apply andb_true_intro. split.
  - apply Nat.ltb_lt. apply lookup_lt_Some in Hmarked. lia.
  - apply List.existsb_exists. exists (failed item). split; [|done].
    apply list_elem_of_In. by eapply list_elem_of_lookup_2.
Qed.

End WidgetEndToEnd.

(** * More worked executions *)

Section LifecycleRuns.
Import Widget WidgetSpec LifecycleSpec.

#[local] Existing Instance sample_browser.

Lemma success_marks_that_item_witness :
  ∃ fl item,
    flights two_in_flight !! 0%nat = Some fl ∧
    selectedFiles two_in_flight !! 0%nat = Some item ∧
    selectedFiles (step two_in_flight (EvFulfil 0 secure)) !! 0%nat
    = Some (succeeded secure item).
Proof.
  eexists _, _. split; [reflexivity|]. split; [reflexivity|].
  destruct (success_marks_that_item two_in_flight 0 _ secure eq_refl eq_refl)
    as (_ & Hmarked & _).
  apply Hmarked; reflexivity.
Defined.



Lemma progress_follows_bytes_witness :
  let w1 := step two_in_flight (EvProgress 0 four_of_ten 1400) in
  let w2 := step w1 (EvProgress 0 seven_of_ten 1900) in
  ∃ item1 item2,
    selectedFiles w1 !! 0%nat = Some item1 ∧
    selectedFiles w2 !! 0%nat = Some item2 ∧
    progress item1 ≤ progress item2.
Proof.
  eapply (progress_follows_bytes two_in_flight 0 _ four_of_ten seven_of_ten
            1400 1900 10 0);
    try reflexivity; try done.
Defined.

Lemma lifecycle_keeps_identity_witness :
  map identity
    (selectedFiles
       (run two_in_flight
          [EvProgress 0 four_of_ten 1400; EvReject 1; EvFulfil 0 secure]))
  = map identity (selectedFiles two_in_flight).
Proof.
  apply (lifecycle_keeps_identity
           [EvProgress 0 four_of_ten 1400; EvReject 1; EvFulfil 0 secure]
           two_in_flight).
  repeat constructor.
Defined.

Lemma unlisted_upload_changes_nothing_witness :
  selectedFiles (step removed_in_flight (EvFulfil 0 secure))
  = selectedFiles removed_in_flight.
Proof.
  eapply (unlisted_upload_changes_nothing removed_in_flight 0 _
            (EvFulfil 0 secure)).
  - reflexivity.
  - reflexivity.
  - repeat constructor. discriminate.
Defined.

Lemma first_failure_ends_batch_witness :
  uploading (step two_in_flight (EvReject 1)) = false ∧
  length (outstanding 0 (step two_in_flight (EvReject 1))) = 1%nat.
Proof.
  destruct (first_failure_ends_batch two_in_flight 1 _ _ eq_refl eq_refl
              eq_refl eq_refl) as (Hidle & _ & _ & _ & Hleft).
  split; [exact Hidle|]. reflexivity.
Defined.

Lemma last_success_completes_batch_witness :
  let w := step two_in_flight (EvFulfil 1 secure) in
  uploading (step w (EvFulfil 0 secure)) = false ∧
  notices (step w (EvFulfil 0 secure))
  = [ConsoleLog "All uploads complete"].
Proof.
  pose proof (last_success_completes_batch
                (step two_in_flight (EvFulfil 1 secure)) 0 _ _ secure
                eq_refl eq_refl eq_refl eq_refl) as Hlast.
  split; apply Hlast.
Defined.

Lemma one_join_at_a_time_witness :
  length (pending_joins (run initial second_fails)) = 0%nat.
Proof. exact (one_join_at_a_time second_fails eq_refl). Defined.

Lemma ids_stay_unique_witness :
  NoDup (map id (selectedFiles (run initial second_fails))).
Proof.
  apply (ids_stay_unique second_fails).
  intros m n Heq. cbn in Heq. injection Heq as Heq.
  by apply (inj pretty).
Defined.

Lemma list_change_revokes_previews_witness :
  Forall (λ item,
            url item ∈ revoked (step two_in_flight
                                  (EvProgress 0 four_of_ten 1400)))
    (selectedFiles (step two_in_flight (EvProgress 0 four_of_ten 1400))).
Proof.
  apply (list_change_revokes_previews two_in_flight
           (EvProgress 0 four_of_ten 1400)).
  - discriminate.
  - exact I.
Defined.

Lemma rendered_remove_button_removes_witness :
  let w := run initial second_fails in
  (length (selectedFiles (step w (EvRemove "k71")))
   < length (selectedFiles w))%nat.
Proof.
  apply (rendered_remove_button_removes (run initial second_fails) "k71").
  reflexivity.
Defined.

Lemma batch_of_successes_witness :
  let w := run initial
             (EvDrop [photo; clip] :: EvUpload 1000 ::
              [EvProgress 0 four_of_ten 1400; EvFulfil 1 secure;
               EvFulfil 0 secure]) in
  uploading w = false ∧ notices w = [ConsoleLog "All uploads complete"].
Proof.
  destruct (batch_of_successes [photo; clip] 1000
              [EvProgress 0 four_of_ten 1400; EvFulfil 1 secure;
               EvFulfil 0 secure])
    as (_ & _ & Hidle & Hnotices).
  - intros m n Heq. cbn in Heq. injection Heq as Heq. by apply (inj pretty).
  - discriminate.
  - repeat constructor.
  - repeat constructor.
  - split; [exact Hidle|exact Hnotices].
Defined.

Lemma upload_offered_after_failure_witness :
  offered (step two_in_flight (EvReject 1)) (EvUpload 2000) = true.
Proof.
  eapply (upload_offered_after_failure two_in_flight 1 _ _ 1%nat _ 2000);
    reflexivity.
Defined.

End LifecycleRuns.
